(** * pdf-suite backend: page ranges, colours and the annotation pipeline

    A shallow embedding of the helper functions and of the [/api/annotate]
    route of the Express server, together with the properties the design
    document states about them.

    - [parsePageRange] (helper of the split route),
    - [hexToRgb] (colour parsing, through a small backtracking matcher for
      the regular expression the source uses),
    - [convertCoords] and the annotation loop of [app.post('/api/annotate')].

    JavaScript numbers are IEEE-754 binary64 values.  The pipeline is written
    once, over an interface [JsNumber] of the operations the source applies to
    numbers, and the interface has two instances:
    - [xq], exact rationals extended with [NaN] and the two infinities, so
      that division by zero behaves as in JavaScript; rounding is abstracted
      (finite results are exact) and zero is unsigned.  The universally
      quantified arithmetic properties are proved over this instance;
    - [float], Rocq's primitive binary64 numbers, on which concrete scenarios
      are evaluated bit for bit.

    pdf-lib (the document store) is outside the repository: a page is its
    size, and the drawing primitives are recorded in the order of issue.
    [annotate_one] and [annotate] give the calls the route makes and the
    exceptions its own code raises; [annotate_one_lib] and [annotate_lib]
    add the checks of pdf-lib on each call, as an arbitrary function of the
    call.  Whether pdf-lib fails to load or save a document is not
    modelled. *)

From Stdlib Require Import ZArith QArith Qcanon Floats Lia.
From Stdlib Require Import Ascii String.
From stdpp Require Import base numbers list strings sorting gmap.

Local Open Scope Z_scope.

(** ** JavaScript numbers *)

(** The operations the source applies to numbers: [+ - * /], [<], [>=],
    truthiness (for [||]), use as an array index, and integer literals. *)
Class JsNumber (num : Type) := {
  of_Z : Z -> num;
  nadd : num -> num -> num;
  nsub : num -> num -> num;
  nmul : num -> num -> num;
  ndiv : num -> num -> num;
  nlt : num -> num -> bool;
  nge : num -> num -> bool;
  ntruthy : num -> bool;
  (** The value arithmetic yields for [undefined] and for a failed
      [parseInt]. *)
  nan : num;
  (** [arr[n]]: [Some i] when [n] is the array index [i], [None] when the
      property key is not an index (the access then reads [undefined]). *)
  nindex : num -> option nat
}.

Declare Scope js_scope.
Delimit Scope js_scope with js.
Infix "+" := nadd : js_scope.
Infix "-" := nsub : js_scope.
Infix "*" := nmul : js_scope.
Infix "/" := ndiv : js_scope.

(** *** Exact extended rationals *)

Inductive xq : Type :=
  | Num (q : Qc)
  | PosInf
  | NegInf
  | NaN.

(** An integer as a rational. *)
Definition Qz (z : Z) : Qc := Q2Qc (inject_Z z).

Definition Qc_sign (q : Qc) : comparison := (q ?= 0)%Qc.

Definition Qc_ltb (a b : Qc) : bool :=
  match (a ?= b)%Qc with Lt => true | _ => false end.

Definition Qc_leb (a b : Qc) : bool :=
  match (a ?= b)%Qc with Gt => false | _ => true end.

(** Sign of a number, [None] for [NaN]. *)
Definition xq_sign (a : xq) : option comparison :=
  match a with
  | Num q => Some (Qc_sign q)
  | PosInf => Some Gt
  | NegInf => Some Lt
  | NaN => None
  end.

(** The infinity of a given sign; a zero sign stands for [0 * Infinity] or
    [0 / 0], which are [NaN]. *)
Definition xq_inf (s : comparison) : xq :=
  match s with Gt => PosInf | Lt => NegInf | Eq => NaN end.

Definition sign_mul (s t : comparison) : comparison :=
  match s, t with
  | Eq, _ | _, Eq => Eq
  | Gt, Gt | Lt, Lt => Gt
  | _, _ => Lt
  end.

Definition xq_opp (a : xq) : xq :=
  match a with
  | Num q => Num (- q)%Qc
  | PosInf => NegInf
  | NegInf => PosInf
  | NaN => NaN
  end.

Definition xq_add (a b : xq) : xq :=
  match a, b with
  | NaN, _ | _, NaN => NaN
  | Num p, Num q => Num (p + q)%Qc
  | PosInf, NegInf | NegInf, PosInf => NaN
  | PosInf, _ | _, PosInf => PosInf
  | NegInf, _ | _, NegInf => NegInf
  end.

Definition xq_sub (a b : xq) : xq := xq_add a (xq_opp b).

Definition xq_mul (a b : xq) : xq :=
  match a, b with
  | Num p, Num q => Num (p * q)%Qc
  | _, _ =>
      match xq_sign a, xq_sign b with
      | Some s, Some t => xq_inf (sign_mul s t)
      | _, _ => NaN
      end
  end.

(** Division: a finite number over zero is an infinity of its sign (or [NaN]
    for [0 / 0]); nothing raises. *)
Definition xq_div (a b : xq) : xq :=
  match a, b with
  | NaN, _ | _, NaN => NaN
  | Num p, Num q =>
      match Qc_sign q with
      | Eq => xq_inf (Qc_sign p)
      | _ => Num (p / q)%Qc
      end
  | Num _, _ => Num 0%Qc
  | _, Num q =>
      match xq_sign a with
      | Some s => xq_inf (sign_mul s (match Qc_sign q with Lt => Lt | _ => Gt end))
      | None => NaN
      end
  | _, _ => NaN
  end.

Definition xq_lt (a b : xq) : bool :=
  match a, b with
  | NaN, _ | _, NaN => false
  | Num p, Num q => Qc_ltb p q
  | NegInf, NegInf => false
  | NegInf, _ => true
  | _, PosInf => match a with PosInf => false | _ => true end
  | _, _ => false
  end.

Definition xq_ge (a b : xq) : bool :=
  match a, b with
  | NaN, _ | _, NaN => false
  | Num p, Num q => Qc_leb q p
  | PosInf, _ => true
  | _, NegInf => true
  | _, _ => false
  end.

Definition xq_truthy (a : xq) : bool :=
  match a with
  | Num q => match Qc_sign q with Eq => false | _ => true end
  | NaN => false
  | _ => true
  end.

Definition xq_index (a : xq) : option nat :=
  match a with
  | Num q =>
      match Qnum (this q), Qden (this q) with
      | Z.neg _, _ => None
      | n, xH => Some (Z.to_nat n)
      | _, _ => None
      end
  | _ => None
  end.

#[export] Instance xq_number : JsNumber xq := {
  of_Z z := Num (Qz z);
  nadd := xq_add;
  nsub := xq_sub;
  nmul := xq_mul;
  ndiv := xq_div;
  nlt := xq_lt;
  nge := xq_ge;
  ntruthy := xq_truthy;
  nan := NaN;
  nindex := xq_index
}.

(** [Math.min] and [Math.abs] on finite numbers, used to state results. *)
Definition Qc_min (a b : Qc) : Qc := if Qc_leb a b then a else b.
Definition Qc_abs (a : Qc) : Qc := if Qc_leb 0%Qc a then a else (- a)%Qc.

Definition is_finite (a : xq) : bool :=
  match a with Num _ => true | _ => false end.

(** *** Binary64 *)

Definition float_of_Z (z : Z) : float :=
  match z with
  | Z.neg p => PrimFloat.opp (PrimFloat.of_uint63 (Uint63.of_Z (Z.pos p)))
  | _ => PrimFloat.of_uint63 (Uint63.of_Z z)
  end.

Definition float_ge (a b : float) : bool := PrimFloat.leb b a.

Definition float_truthy (a : float) : bool :=
  negb (PrimFloat.eqb a 0%float || PrimFloat.is_nan a).

Definition float_index (a : float) : option nat :=
  match Prim2SF a with
  | S754_zero _ => Some 0%nat
  | S754_finite false m e =>
      match e with
      | Z.neg k =>
          if (Z.pos m mod 2 ^ Z.pos k =? 0)
          then Some (Z.to_nat (Z.pos m / 2 ^ Z.pos k)) else None
      | _ => Some (Z.to_nat (Z.pos m * 2 ^ e))
      end
  | _ => None
  end.

#[export] Instance float_number : JsNumber float := {
  of_Z := float_of_Z;
  nadd := PrimFloat.add;
  nsub := PrimFloat.sub;
  nmul := PrimFloat.mul;
  ndiv := PrimFloat.div;
  nlt := PrimFloat.ltb;
  nge := float_ge;
  ntruthy := float_truthy;
  nan := PrimFloat.nan;
  nindex := float_index
}.

(** ** Exceptions *)

(** The exceptions the modelled code meets: the [TypeError] its own code
    raises by reading a property of [undefined], where the string names the
    property, and an exception a library throws, kept by its message. *)
Inductive Exception : Type :=
  | TypeError (reading : string)
  | Thrown (msg : string).

Inductive Result (A : Type) : Type :=
  | Ok (a : A)
  | Throw (e : Exception).
Arguments Ok {A} a.
Arguments Throw {A} e.

Definition bind {A B : Type} (r : Result A) (f : A -> Result B) : Result B :=
  match r with
  | Ok a => f a
  | Throw e => Throw e
  end.

Notation "'let*' x := r 'in' k" := (bind r (fun x => k))
  (at level 10, x name, r at level 100, k at level 200).

(** Reading a property of a value that may be [undefined]. *)
Definition read {A : Type} (reading : string) (o : option A) : Result A :=
  match o with
  | Some a => Ok a
  | None => Throw (TypeError reading)
  end.

(** ** JavaScript strings

    A [string] is a sequence of code units below 256. *)

(** White space and line terminators, as [trim] and [parseInt] strip them:
    TAB, LF, VT, FF, CR, SP and NBSP. *)
Definition is_white (c : ascii) : bool :=
  let n := nat_of_ascii c in
  ((9 <=? n) && (n <=? 13) || (n =? 32) || (n =? 160))%nat.

Fixpoint trimStart (s : string) : string :=
  match s with
  | String c r => if is_white c then trimStart r else s
  | EmptyString => EmptyString
  end.

Definition trimEnd (s : string) : string :=
  String.rev (trimStart (String.rev s)).

Definition trim (s : string) : string := trimEnd (trimStart s).

(** [s.includes(c)] for a one-character needle. *)
Fixpoint includes (sep : ascii) (s : string) : bool :=
  match s with
  | String c r => if Ascii.eqb c sep then true else includes sep r
  | EmptyString => false
  end.

(** [s.split(c)] for a one-character separator: never empty. *)
Fixpoint split (sep : ascii) (s : string) : list string :=
  match s with
  | EmptyString => [EmptyString]
  | String c r =>
      if Ascii.eqb c sep then EmptyString :: split sep r
      else match split sep r with
           | h :: t => String c h :: t
           | [] => [String c EmptyString]
           end
  end.

(** Value of a digit in radixes up to 36. *)
Definition digit_value (c : ascii) : option Z :=
  let n := Z.of_nat (nat_of_ascii c) in
  if (48 <=? n) && (n <=? 57) then Some (n - 48)
  else if (97 <=? n) && (n <=? 122) then Some (n - 87)
  else if (65 <=? n) && (n <=? 90) then Some (n - 55)
  else None.

(** The longest prefix of radix-[rdx] digits, as a number; [acc] is [None]
    until a digit has been read. *)
Fixpoint parse_digits (rdx : Z) (s : string) (acc : option Z) : option Z :=
  match s with
  | String c r =>
      match digit_value c with
      | Some d =>
          if d <? rdx then parse_digits rdx r (Some (default 0 acc * rdx + d))
          else acc
      | None => acc
      end
  | EmptyString => acc
  end.

(** A leading [-] or [+] is the sign. *)
Definition strip_sign (s : string) : Z * string :=
  match s with
  | String c r =>
      if Ascii.eqb c "-" then (-1, r)
      else if Ascii.eqb c "+" then (1, r)
      else (1, s)
  | EmptyString => (1, s)
  end.

(** A leading [0x] or [0X] is dropped. *)
Definition strip_hex_prefix (s : string) : option string :=
  match s with
  | String c0 (String c1 r) =>
      if Ascii.eqb c0 "0" && (Ascii.eqb c1 "x" || Ascii.eqb c1 "X")
      then Some r else None
  | _ => None
  end.

(** [parseInt(s, radix)] of ECMA-262; [None] is [NaN], a missing radix is
    [0].  The value is the exact integer the digits denote: a binary64
    result is that integer up to 2^53 and its rounding beyond, which makes
    no difference to [parsePageRange] for a page count below 2^53. *)
Definition parseInt (s : string) (radix : Z) : option Z :=
  let '(sign, inputString) := strip_sign (trimStart s) in
  if negb (radix =? 0) && ((radix <? 2) || (36 <? radix)) then None
  else
    let stripPrefix := (radix =? 0) || (radix =? 16) in
    let r10 := if radix =? 0 then 10 else radix in
    let '(rdx, digits) :=
      match (if stripPrefix then strip_hex_prefix inputString else None) with
      | Some rest => (16, rest)
      | None => (r10, inputString)
      end in
    match parse_digits rdx digits None with
    | Some mathInt => Some (sign * mathInt)
    | None => None
    end.

(** ** [parsePageRange] *)

(** [Set.prototype.add] on an insertion-ordered set. *)
Definition set_add (i : Z) (pages : list Z) : list Z :=
  if decide (i ∈ pages) then pages else pages ++ [i].

(** [for (let i = start; i <= hi; i++) if (i > 0) pages.add(i)]. *)
Definition add_range (start hi : Z) (pages : list Z) : list Z :=
  foldl (fun pages i => if 0 <? i then set_add i pages else pages)
        pages (seqZ start (hi - start + 1)).

(** The body of the loop over the comma-separated parts. *)
Definition add_part (maxPages : Z) (pages : list Z) (part : string)
  : Result (list Z) :=
  let trimmed := trim part in
  if includes "-" trimmed then
    let pieces := split "-" trimmed in
    let* startStr := read "trim" (pieces !! 0%nat) in
    let* endStr := read "trim" (pieces !! 1%nat) in
    match parseInt (trim startStr) 0, parseInt (trim endStr) 0 with
    | Some start, Some end_ =>
        if start <=? end_
        then Ok (add_range start (Z.min end_ maxPages) pages)
        else Ok pages
    | _, _ => Ok pages
    end
  else
    match parseInt trimmed 0 with
    | Some pageNum =>
        if (0 <? pageNum) && (pageNum <=? maxPages)
        then Ok (set_add pageNum pages)
        else Ok pages
    | None => Ok pages
    end.

Fixpoint for_of {A St : Type} (body : St -> A -> Result St) (s : St)
  (l : list A) : Result St :=
  match l with
  | [] => Ok s
  | a :: l' => let* s' := body s a in for_of body s' l'
  end.

Definition parsePageRange (range : string) (maxPages : Z) : Result (list Z) :=
  let parts := split "," range in
  let* pages := for_of (add_part maxPages) [] parts in
  Ok (merge_sort Z.le pages).

(** ** Regular expressions

    The fragment [hexToRgb] uses, matched as ECMA-262 specifies: a
    backtracking matcher in continuation-passing style.  The [i] flag is
    always on. *)

Inductive regex : Type :=
  | RChar (c : ascii)                       (* a literal character *)
  | RClass (ranges : list (ascii * ascii))  (* [a-f\d] is [a-f0-9] *)
  | RSeq (r1 r2 : regex)
  | ROpt (r : regex)                        (* r? (greedy) *)
  | RRep (n : nat) (r : regex)              (* r{n} *)
  | RGroup (i : nat) (r : regex).           (* the i-th capturing group *)

(** [Canonicalize] under the [i] flag: the upper-case form.  A code unit
    from 128 on never canonicalizes to one below 128, so it is left as it
    is. *)
Definition canonicalize (c : ascii) : ascii :=
  let n := nat_of_ascii c in
  if ((97 <=? n) && (n <=? 122))%nat then ascii_of_nat (n - 32) else c.

Definition range_members (r : ascii * ascii) : list ascii :=
  let lo := nat_of_ascii (fst r) in
  let hi := nat_of_ascii (snd r) in
  map ascii_of_nat (seq lo (hi + 1 - lo)).

Definition class_matches (ranges : list (ascii * ascii)) (c : ascii) : bool :=
  existsb (fun m => Ascii.eqb (canonicalize m) (canonicalize c))
          (concat (map range_members ranges)).

Definition captures := list (option string).
Definition continuation := string -> captures -> option captures.

(** The part of [s] consumed when [rest] is what remains of it. *)
Definition consumed (s rest : string) : string :=
  substring 0 (String.length s - String.length rest) s.

(** [r{n}]: [n] matches of [m] in a row. *)
Fixpoint rep (m : string -> captures -> continuation -> option captures)
  (n : nat) (s : string) (caps : captures) (k : continuation)
  : option captures :=
  match n with
  | O => k s caps
  | S n' => m s caps (fun s1 caps1 => rep m n' s1 caps1 k)
  end.

Fixpoint rmatch (r : regex) (s : string) (caps : captures) (k : continuation)
  : option captures :=
  match r with
  | RChar c =>
      match s with
      | String a rest =>
          if Ascii.eqb (canonicalize a) (canonicalize c) then k rest caps
          else None
      | EmptyString => None
      end
  | RClass ranges =>
      match s with
      | String a rest => if class_matches ranges a then k rest caps else None
      | EmptyString => None
      end
  | RSeq r1 r2 => rmatch r1 s caps (fun s1 caps1 => rmatch r2 s1 caps1 k)
  | ROpt r1 =>
      match rmatch r1 s caps k with
      | Some res => Some res
      | None => k s caps
      end
  | RRep n r1 => rep (rmatch r1) n s caps k
  | RGroup i r1 =>
      rmatch r1 s caps
        (fun s1 caps1 => k s1 (<[i := Some (consumed s s1)]> caps1))
  end.

(** [/^r$/i.exec(s)] for a pattern with [groups] capturing groups: without
    the [m] flag [^] holds at index 0 only and [$] at the end of the input
    only, so the one attempt that can succeed starts at index 0.  The result
    is [null] ([None]) or the array of the whole match and the groups. *)
Definition exec_anchored (r : regex) (groups : nat) (s : string)
  : option captures :=
  rmatch (RGroup 0 r) s (replicate (S groups) None)
    (fun rest caps => match rest with EmptyString => Some caps | _ => None end).

(** ** Colours and [hexToRgb] *)

Section Pipeline.
Context {num : Type} `{JsNumber num}.
Local Open Scope js_scope.

(** pdf-lib's [rgb(r, g, b)] colour object. *)
Record Color : Type := rgb { red : num; green : num; blue : num }.

(** [/^#?([a-f\d]{2})([a-f\d]{2})([a-f\d]{2})$/i] *)
Definition hex_digit_class : regex := RClass [("a", "f"); ("0", "9")]%char.

Definition hex_color_regex : regex :=
  RSeq (ROpt (RChar "#"))
    (RSeq (RGroup 1 (RRep 2 hex_digit_class))
      (RSeq (RGroup 2 (RRep 2 hex_digit_class))
            (RGroup 3 (RRep 2 hex_digit_class)))).

(** A [parseInt] result as a number. *)
Definition num_of_parse (o : option Z) : num :=
  match o with
  | Some z => of_Z z
  | None => nan
  end.

Definition yellow : Color := rgb (of_Z 1) (of_Z 1) (of_Z 0).

(** [parseInt(result[i], 16)]; a group that did not take part in the match
    reads [undefined], which [parseInt] turns into [NaN]. *)
Definition group_value (result : captures) (i : nat) : num :=
  match result !! i with
  | Some (Some g) => num_of_parse (parseInt g 16)
  | _ => nan
  end.

(** [hex] is [None] for an absent ([undefined]) colour; the empty string is
    the falsy string. *)
Definition hexToRgb (hex : option string) : Color :=
  match hex with
  | None | Some EmptyString => yellow            (* if (!hex) *)
  | Some s =>
      match exec_anchored hex_color_regex 3 s with
      | Some result =>
          rgb (group_value result 1 / of_Z 255)
              (group_value result 2 / of_Z 255)
              (group_value result 3 / of_Z 255)
      | None => yellow
      end
  end.

(** ** The annotation route *)

(** [page.getSize()], and [ann.canvasSize]. *)
Record Size : Type := { width : num; height : num }.

(** [ann.rect]. *)
Record Rect : Type := {
  rect_x : num; rect_y : num; rect_width : num; rect_height : num
}.

(** One element of the parsed [annotations] array.  An object field that
    may be absent is an [option]; an absent numeric field reads [undefined],
    which compares and computes as [nan], so [page] and the fields of
    [Size] and [Rect] are plain numbers. *)
Record Annotation : Type := {
  page : num;
  canvasSize : option Size;
  color : option string;
  type : string;
  rect : option Rect;
  paths : option (list (num * num));
  strokeWidth : option num
}.

Inductive LineCapStyle : Type := Butt | Round | Projecting.

(** [`M ${convertedPath[0]} L ${convertedPath.slice(1).join(' ')}`], kept
    structured: the point after [M] and the points after [L]. *)
Record SvgPath : Type := {
  moveTo : option (num * num);
  lineTo : list (num * num)
}.

(** The calls made on the pages of the document, with the index of the page
    they are made on. *)
Inductive DrawCall : Type :=
  | drawRectangle (pageIndex : nat) (x y w h : num) (c : Color) (opacity : num)
  | drawSvgPath (pageIndex : nat) (path : SvgPath) (borderColor : Color)
      (borderWidth : num) (borderLineCap : LineCapStyle).

(** The closure [convertCoords] with the four variables it captures: canvas
    pixels, origin top-left, to page points, origin bottom-left. *)
Definition convertCoords (canvasWidth canvasHeight pdfPageWidth pdfPageHeight : num)
  (x y : num) : num * num :=
  let pdfX := (x / canvasWidth) * pdfPageWidth in
  let pdfY := pdfPageHeight - ((y / canvasHeight) * pdfPageHeight) in
  (pdfX, pdfY).

(** [pages[ann.page]], with the index it denotes. *)
Definition page_at (pages : list Size) (n : num) : option (nat * Size) :=
  match nindex n with
  | Some i =>
      match pages !! i with
      | Some pg => Some (i, pg)
      | None => None
      end
  | None => None
  end.

(** [ann.strokeWidth || 3] *)
Definition stroke_or_3 (sw : option num) : num :=
  match sw with
  | Some w => if ntruthy w then w else of_Z 3
  | None => of_Z 3
  end.

(** The literal [0.3]. *)
Definition highlight_opacity : num := of_Z 3 / of_Z 10.

(** [ann.page < 0 || ann.page >= pages.length] *)
Definition out_of_range (pages : list Size) (ann : Annotation) : bool :=
  nlt (page ann) (of_Z 0)
  || nge (page ann) (of_Z (Z.of_nat (length pages))).

(** The body of [for (const ann of annotations)]; [doc] is the list of
    calls made so far. *)
Definition annotate_one (pages : list Size) (doc : list DrawCall)
  (ann : Annotation) : Result (list DrawCall) :=
  if out_of_range pages ann then Ok doc                        (* continue *)
  else
    let* pg := read "getSize" (page_at pages (page ann)) in
    let i := fst pg in
    let pdfPageWidth := width (snd pg) in
    let pdfPageHeight := height (snd pg) in
    let* cs := read "width" (canvasSize ann) in
    let canvasWidth := width cs in
    let canvasHeight := height cs in
    let c := hexToRgb (color ann) in
    let convert := convertCoords canvasWidth canvasHeight
                     pdfPageWidth pdfPageHeight in
    if String.eqb (type ann) "highlight" then
      let* r := read "x" (rect ann) in
      let '(pdfX, pdfY1) := convert (rect_x r) (rect_y r) in
      let '(_, pdfY2) :=
        convert (rect_x r + rect_width r) (rect_y r + rect_height r) in
      let pdfWidth := (rect_width r / canvasWidth) * pdfPageWidth in
      let pdfHeight := pdfY1 - pdfY2 in
      Ok (doc ++ [drawRectangle i pdfX pdfY2 pdfWidth pdfHeight c
                    highlight_opacity])
    else if String.eqb (type ann) "draw" then
      let* pts := read "length" (paths ann) in
      if (length pts <? 2)%nat then Ok doc                     (* continue *)
      else
        let convertedPath := map (fun p => convert (fst p) (snd p)) pts in
        let svgPath := {| moveTo := head convertedPath;
                          lineTo := tail convertedPath |} in
        Ok (doc ++ [drawSvgPath i svgPath c (stroke_or_3 (strokeWidth ann))
                      Round])
    else Ok doc.

(** What the route answers once the document is loaded: the saved document
    (the pages with every call made on them) or status 500 with the
    exception caught. *)
Inductive Response : Type :=
  | SendPdf (calls : list DrawCall)
  | Status500 (error : Exception).

Definition annotate (pages : list Size) (annotations : list Annotation)
  : Response :=
  match for_of (annotate_one pages) [] annotations with
  | Ok doc => SendPdf doc
  | Throw e => Status500 e
  end.

Definition has {A : Type} (o : option A) : bool :=
  match o with Some _ => true | None => false end.

(** An annotation is complete when it is skipped for its page index, or
    its page index denotes a page, it has a canvas size, and it has the
    field its type reads: [rect] for a highlight, [paths] for a draw,
    nothing for any other type. *)
Definition complete (pages : list Size) (ann : Annotation) : bool :=
  out_of_range pages ann
  || (has (page_at pages (page ann)) && has (canvasSize ann)
      && (if String.eqb (type ann) "highlight" then has (rect ann)
          else if String.eqb (type ann) "draw" then has (paths ann)
          else true)).

End Pipeline.

Arguments Color num : clear implicits.
Arguments Size num : clear implicits.
Arguments Rect num : clear implicits.
Arguments Annotation num : clear implicits.
Arguments SvgPath num : clear implicits.
Arguments DrawCall num : clear implicits.
Arguments Response num : clear implicits.

(** ** The scenario of the design document

    A document of two 600x800 pages and one red highlight on page 0 drawn
    on a 300x400 canvas. *)

Section Scenario.
Context {num : Type} `{JsNumber num}.
Local Open Scope string_scope.

Definition scenario_pages : list (Size num) :=
  [ {| width := of_Z 600; height := of_Z 800 |};
    {| width := of_Z 600; height := of_Z 800 |} ].

Definition scenario_highlight : Annotation num := {|
  page := of_Z 0;
  canvasSize := Some {| width := of_Z 300; height := of_Z 400 |};
  color := Some "#FF0000";
  type := "highlight";
  rect := Some {| rect_x := of_Z 30; rect_y := of_Z 40;
                  rect_width := of_Z 60; rect_height := of_Z 80 |};
  paths := None;
  strokeWidth := None
|}.

(** The same annotation with another page index. *)
Definition on_page (p : num) (ann : Annotation num) : Annotation num := {|
  page := p;
  canvasSize := canvasSize ann;
  color := color ann;
  type := type ann;
  rect := rect ann;
  paths := paths ann;
  strokeWidth := strokeWidth ann
|}.

(** The same annotation without its canvas size. *)
Definition without_canvasSize (ann : Annotation num) : Annotation num := {|
  page := page ann;
  canvasSize := None;
  color := color ann;
  type := type ann;
  rect := rect ann;
  paths := paths ann;
  strokeWidth := strokeWidth ann
|}.

(** A three-point stroke on page 1, without colour or stroke width. *)
Definition scenario_stroke : Annotation num := {|
  page := of_Z 1;
  canvasSize := Some {| width := of_Z 300; height := of_Z 400 |};
  color := None;
  type := "draw";
  rect := None;
  paths := Some [(of_Z 0, of_Z 0); (of_Z 150, of_Z 200); (of_Z 300, of_Z 400)];
  strokeWidth := None
|}.

(** [drawRectangle] on page 0 at x = 60 with width 120, height 160, red,
    opacity 0.3, and the given origin y. *)
Definition scenario_call (originY : Z) : DrawCall num :=
  drawRectangle 0 (of_Z 60) (of_Z originY) (of_Z 120) (of_Z 160)
    (rgb (of_Z 1) (of_Z 0) (of_Z 0)) highlight_opacity.

End Scenario.

(** ** Vocabulary of the statements *)

(** The strings a regular expression denotes. *)
Inductive matches : regex -> string -> Prop :=
  | matches_char c a :
      canonicalize a = canonicalize c ->
      matches (RChar c) (String a EmptyString)
  | matches_class ranges a :
      class_matches ranges a = true ->
      matches (RClass ranges) (String a EmptyString)
  | matches_seq r1 r2 s1 s2 :
      matches r1 s1 -> matches r2 s2 -> matches (RSeq r1 r2) (s1 +:+ s2)
  | matches_opt_skip r : matches (ROpt r) EmptyString
  | matches_opt_take r s : matches r s -> matches (ROpt r) s
  | matches_rep_O r : matches (RRep 0 r) EmptyString
  | matches_rep_S n r s1 s2 :
      matches r s1 -> matches (RRep n r) s2 ->
      matches (RRep (S n) r) (s1 +:+ s2)
  | matches_group i r s : matches r s -> matches (RGroup i r) s.

(** The pages a comma-separated part stands for: a number denotes itself,
    a dash range the integers between its two numeric endpoints; only pages
    from 1 to [maxPages] count. *)
Definition in_part (maxPages : Z) (part : string) (p : Z) : Prop :=
  let trimmed := trim part in
  if includes "-" trimmed then
    exists startStr endStr start end_,
      split "-" trimmed !! 0%nat = Some startStr
      /\ split "-" trimmed !! 1%nat = Some endStr
      /\ parseInt (trim startStr) 0 = Some start
      /\ parseInt (trim endStr) 0 = Some end_
      /\ start <= p <= end_ /\ 1 <= p <= maxPages
  else parseInt trimmed 0 = Some p /\ 1 <= p <= maxPages.

(** A hexadecimal digit: [0-9], [a-f] or [A-F]. *)
Definition is_hex_digit (c : ascii) : bool :=
  let n := nat_of_ascii c in
  ((48 <=? n) && (n <=? 57) || (97 <=? n) && (n <=? 102)
   || (65 <=? n) && (n <=? 70))%nat.

Definition six_hex_digits (s : string) : bool :=
  (String.length s =? 6)%nat && forallb is_hex_digit (list_ascii_of_string s).

(** A 6-hex-digit string, with or without a leading [#]. *)
Definition well_formed_hex (s : string) : bool :=
  match s with
  | String "#" d => six_hex_digits d
  | _ => six_hex_digits s
  end.

(** The points of the path [M p0 L p1 ... pn], in order. *)
Definition path_points {num : Type} (p : SvgPath num) : list (num * num) :=
  match moveTo p with
  | Some m => m :: lineTo p
  | None => lineTo p
  end.

(** A finite stroke width, 3 when unset or zero. *)
Definition default_stroke (sw : option Qc) : Qc :=
  match sw with
  | Some w => if Qc_eq_dec w 0%Qc then Qz 3 else w
  | None => Qz 3
  end.

(** ** The earlier server file: [parsePageRange]

    The second server file of the repository keeps an earlier
    [parsePageRange]: an array filled through [includes]/[push], no [isNaN]
    test and no test of [start <= end]. *)

(** An element of [trimmed.split('-').map(n => parseInt(n.trim()))]; a
    missing element reads [undefined], which compares as [NaN]. *)
Definition nth_number (nums : list (option Z)) (i : nat) : option Z :=
  match nums !! i with
  | Some n => n
  | None => None
  end.

(** The body of the loop of the earlier version.  A comparison with [NaN]
    is false, so with a [NaN] start, or a [NaN] bound [Math.min(end,
    maxPages)], the inner loop does not run. *)
Definition add_part_v0 (maxPages : Z) (pages : list Z) (part : string)
  : list Z :=
  let trimmed := trim part in
  if includes "-" trimmed then
    let nums := map (fun n => parseInt (trim n) 0) (split "-" trimmed) in
    match nth_number nums 0, nth_number nums 1 with
    | Some start, Some end_ => add_range start (Z.min end_ maxPages) pages
    | _, _ => pages
    end
  else
    match parseInt trimmed 0 with
    | Some pageNum =>
        if (0 <? pageNum) && (pageNum <=? maxPages)
        then set_add pageNum pages
        else pages
    | None => pages
    end.

Definition parsePageRange_v0 (range : string) (maxPages : Z) : list Z :=
  merge_sort Z.le (foldl (add_part_v0 maxPages) [] (split "," range)).

(** ** The split route *)

(** What a route answers: a JSON error with its status, or an attachment. *)
Inductive Reply (A : Type) : Type :=
  | Fail (status : nat) (error : string)
  | Send (filename : string) (body : A).
Arguments Fail {A} status error.
Arguments Send {A} filename body.

(** What the route reads of a loaded document. *)
Record PdfInfo : Type := { isEncrypted : bool; pageCount : nat }.

(** [error.message]. *)
Definition message (e : Exception) : string :=
  match e with
  | TypeError reading =>
      "Cannot read properties of undefined (reading '" +:+ reading +:+ "')"
  | Thrown msg => msg
  end.

(** [app.post('/api/split')]: [file] is the path of the upload if any,
    [range] the form field if any, [load] what reading and loading the file
    gives, a document or the message of the error thrown.  The body of the
    attachment is the list of zero-based indices given to [copyPages]. *)
Definition split_route (file : option string) (range : option string)
  (load : string + PdfInfo) : Reply (list Z) :=
  match file with
  | None => Fail 400 "No file uploaded"
  | Some _ =>
      match range with
      | None | Some EmptyString => Fail 400 "Page range is required"
      | Some r =>
          match load with
          | inl msg => Fail 500 ("Failed to split PDF: " +:+ msg)
          | inr pdfDoc =>
              if isEncrypted pdfDoc
              then Fail 500 ("Failed to split PDF: " +:+
                     "Cannot split a password-protected PDF. Please unlock it first.")
              else
                let totalPages := Z.of_nat (pageCount pdfDoc) in
                match parsePageRange r totalPages with
                | Throw e => Fail 500 ("Failed to split PDF: " +:+ message e)
                | Ok pages =>
                    if (length pages =? 0)%nat
                    then Fail 500 ("Failed to split PDF: " +:+
                           "No valid pages in range. Please check your input.")
                    else Send ("split_pages_" +:+ r +:+ ".pdf")
                              (map (fun p => p - 1) pages)
                end
          end
      end
  end.


(** The value of a pair of hexadecimal digits. *)
Definition hex_pair (a b : ascii) : Z :=
  default 0 (digit_value a) * 16 + default 0 (digit_value b).

(** The page a call draws on. *)
Definition call_page {num : Type} (c : DrawCall num) : nat :=
  match c with
  | drawRectangle pageIndex _ _ _ _ _ _ => pageIndex
  | drawSvgPath pageIndex _ _ _ _ => pageIndex
  end.

(** A point with finite coordinates. *)
Definition finite_point (p : Qc * Qc) : xq * xq := (Num (fst p), Num (snd p)).

(** A point of the rectangle [0, w] x [0, h]. *)
Definition within (w h : Qc) (p : Qc * Qc) : Prop :=
  (0 <= fst p <= w)%Qc /\ (0 <= snd p <= h)%Qc.

(** ** The annotation loop with pdf-lib's own checks

    [annotate_one] records the calls the loop makes.  pdf-lib checks what
    [drawRectangle] and [drawSvgPath] are given and throws on what it
    refuses, a coordinate that is [NaN] for one; the exception leaves the
    loop and reaches the [catch] of the route like any other.  The library
    is not part of the repository: [lib doc c] stands for what it does with
    the call [c] on a document that has taken the calls [doc], the exception
    it throws or [None] when it takes the call. *)

Section Validation.
Context {num : Type} `{JsNumber num}.
Local Open Scope js_scope.

Variable lib : list (DrawCall num) -> DrawCall num -> option Exception.

(** [page.drawRectangle(...)] and [page.drawSvgPath(...)]. *)
Definition draw (doc : list (DrawCall num)) (c : DrawCall num)
  : Result (list (DrawCall num)) :=
  match lib doc c with
  | Some e => Throw e
  | None => Ok (doc ++ [c])
  end.

(** The body of [for (const ann of annotations)], as [annotate_one], with
    the two calls going through the library. *)
Definition annotate_one_lib (pages : list (Size num))
  (doc : list (DrawCall num)) (ann : Annotation num)
  : Result (list (DrawCall num)) :=
  if out_of_range pages ann then Ok doc                        (* continue *)
  else
    let* pg := read "getSize" (page_at pages (page ann)) in
    let i := fst pg in
    let pdfPageWidth := width (snd pg) in
    let pdfPageHeight := height (snd pg) in
    let* cs := read "width" (canvasSize ann) in
    let canvasWidth := width cs in
    let canvasHeight := height cs in
    let c := hexToRgb (color ann) in
    let convert := convertCoords canvasWidth canvasHeight
                     pdfPageWidth pdfPageHeight in
    if String.eqb (type ann) "highlight" then
      let* r := read "x" (rect ann) in
      let '(pdfX, pdfY1) := convert (rect_x r) (rect_y r) in
      let '(_, pdfY2) :=
        convert (rect_x r + rect_width r) (rect_y r + rect_height r) in
      let pdfWidth := (rect_width r / canvasWidth) * pdfPageWidth in
      let pdfHeight := pdfY1 - pdfY2 in
      draw doc (drawRectangle i pdfX pdfY2 pdfWidth pdfHeight c
                  highlight_opacity)
    else if String.eqb (type ann) "draw" then
      let* pts := read "length" (paths ann) in
      if (length pts <? 2)%nat then Ok doc                     (* continue *)
      else
        let convertedPath := map (fun p => convert (fst p) (snd p)) pts in
        let svgPath := {| moveTo := head convertedPath;
                          lineTo := tail convertedPath |} in
        draw doc (drawSvgPath i svgPath c (stroke_or_3 (strokeWidth ann))
                    Round)
    else Ok doc.

(** What the route answers once the document is loaded, pdf-lib's checks
    included. *)
Definition annotate_lib (pages : list (Size num))
  (annotations : list (Annotation num)) : Response num :=
  match for_of (annotate_one_lib pages) [] annotations with
  | Ok doc => SendPdf doc
  | Throw e => Status500 e
  end.

End Validation.

(** A pdf-lib that takes every call. *)
Definition takes_all {num : Type} (doc : list (DrawCall num))
  (c : DrawCall num) : option Exception := None.

(** ** Temporary files: [cleanupFiles] and the merge route

    The disk is the set of the paths that exist.  [fs.unlink] removes a
    path that exists and rejects for one that does not.  This first model
    takes every path on the disk for a file that may be deleted, as the
    uploads of a route are; [unlink_fs] below is the general case. *)

Definition unlink (p : string) (disk : gset string) : option (gset string) :=
  if decide (p ∈ disk) then Some (disk ∖ {[p]}) else None.

(** A value found where a path is expected: [null], a string, or anything
    else. *)
Inductive JsFile : Type :=
  | JNull
  | JString (s : string)
  | JOther.

(** The argument of [cleanupFiles]: an array, or a value that is not one. *)
Inductive FilesArg : Type :=
  | NotArray (file : JsFile)
  | Array (files : list JsFile).

(** The body of the loop of [cleanupFiles]; the state is the disk and the
    paths whose deletion failed and was logged. *)
Definition cleanup_one (st : gset string * list string) (file : JsFile)
  : gset string * list string :=
  match file with
  | JString p =>
      if String.eqb p "" then st             (* a falsy string *)
      else match unlink p (fst st) with
           | Some disk' => (disk', snd st)
           | None => (fst st, snd st ++ [p])  (* caught and logged *)
           end
  | _ => st
  end.

Definition cleanupFiles (files : FilesArg) (disk : gset string)
  : gset string * list string :=
  let files := match files with
               | Array l => l
               | NotArray f => [f]
               end in
  foldl cleanup_one (disk, []) files.

(** [fs.unlink] in general.  It also rejects for a path that exists and
    that the file system does not let go, a directory (EISDIR) or a file in
    a directory that may not be written (EPERM, EACCES), and the path then
    stays.  [refuses disk p] tells whether the file system with the paths
    [disk] refuses to remove [p]. *)
Definition unlink_fs (refuses : gset string -> string -> bool) (p : string)
  (disk : gset string) : option (gset string) :=
  if decide (p ∈ disk)
  then if refuses disk p then None else Some (disk ∖ {[p]})
  else None.

(** The body of the loop of [cleanupFiles], over [unlink_fs]. *)
Definition cleanup_one_fs (refuses : gset string -> string -> bool)
  (st : gset string * list string) (file : JsFile)
  : gset string * list string :=
  match file with
  | JString p =>
      if String.eqb p "" then st             (* a falsy string *)
      else match unlink_fs refuses p (fst st) with
           | Some disk' => (disk', snd st)
           | None => (fst st, snd st ++ [p])  (* caught and logged *)
           end
  | _ => st
  end.

(** [cleanupFiles], over [unlink_fs]. *)
Definition cleanupFiles_fs (refuses : gset string -> string -> bool)
  (files : FilesArg) (disk : gset string) : gset string * list string :=
  let files := match files with
               | Array l => l
               | NotArray f => [f]
               end in
  foldl (cleanup_one_fs refuses) (disk, []) files.

(** What the merge route needs to know of the pdf-lib it runs with: whether
    the module exports the name [DecryptionError] that line 5 takes from
    it.  When it does not, the binding is [undefined]. *)
Class PdfLibExports : Type := { exports_DecryptionError : bool }.

(** The message of the [TypeError] of [err instanceof undefined]. *)
Definition not_callable : string :=
  "Right-hand side of 'instanceof' is not callable".

Section Merge.
Context {P : Type} {pdf_lib : PdfLibExports}.

(** What reading and loading an uploaded file gives: a document, with its
    pages and whether it is encrypted; an error of [fs.readFile], thrown
    outside the inner [try]; or an error thrown by [PDFLib.load], inside
    it: an instance of the class [DecryptionError], or another error with
    its message. *)
Inductive LoadOutcome : Type :=
  | Loaded (encrypted : bool) (pages : list P)
  | ReadError (msg : string)
  | DecryptionError
  | LoadError (msg : string).

(** An element of [req.files]. *)
Record Upload : Type := {
  upload_path : string;
  originalname : string;
  content : LoadOutcome
}.

Definition protected_message (file : Upload) : string :=
  "File " +:+ String "034" (originalname file) +:+ String "034"
    " is password-protected and cannot be merged.".

(** The loop over [req.files]: the paths pushed to [uploadedFiles] so far
    and the pages added to [mergedPdf] so far; the result is the paths
    pushed when the loop ends or throws, and the pages or the message of
    the error thrown.  The inner [catch] evaluates
    [err instanceof DecryptionError] first, which throws a [TypeError] of
    its own when [DecryptionError] is [undefined]. *)
Fixpoint merge_loop (files : list Upload) (uploadedFiles : list string)
  (mergedPdf : list P) : list string * (string + list P) :=
  match files with
  | [] => (uploadedFiles, inr mergedPdf)
  | file :: rest =>
      let uploadedFiles := uploadedFiles ++ [upload_path file] in
      match content file with
      | ReadError msg => (uploadedFiles, inl msg)
      | DecryptionError =>
          if exports_DecryptionError
          then (uploadedFiles, inl (protected_message file))
          else (uploadedFiles, inl not_callable)
      | LoadError msg =>
          if exports_DecryptionError
          then (uploadedFiles, inl msg)               (* throw err *)
          else (uploadedFiles, inl not_callable)
      | Loaded encrypted pages =>
          if encrypted then (uploadedFiles, inl (protected_message file))
          else merge_loop rest uploadedFiles (mergedPdf ++ pages)
      end
  end.

(** [app.post('/api/merge')]: the answer, and the disk and deletion log
    after the [finally] block. *)
Definition merge_route (files : option (list Upload)) (disk : gset string)
  : Reply (list P) * (gset string * list string) :=
  let result :=
    match files with
    | None | Some [] => ([], Fail 400 "No files uploaded")
    | Some l =>
        match merge_loop l [] [] with
        | (uploadedFiles, inr mergedPdf) =>
            (uploadedFiles, Send "merged.pdf" mergedPdf)
        | (uploadedFiles, inl msg) =>
            (uploadedFiles, Fail 500 ("Failed to merge PDFs: " +:+ msg))
        end
    end in
  (snd result, cleanupFiles (Array (map JString (fst result))) disk).

(** The pages of an upload that loads. *)
Definition pages_of (file : Upload) : list P :=
  match content file with
  | Loaded _ pages => pages
  | _ => []
  end.

(** An upload the merge accepts: it loads and is not encrypted. *)
Definition mergeable (file : Upload) : bool :=
  match content file with
  | Loaded encrypted _ => negb encrypted
  | _ => false
  end.


End Merge.

Arguments LoadOutcome P : clear implicits.
Arguments Upload P : clear implicits.

(** A pdf-lib that exports no [DecryptionError], and one that does. *)
Definition without_DecryptionError : PdfLibExports :=
  {| exports_DecryptionError := false |}.
Definition with_DecryptionError : PdfLibExports :=
  {| exports_DecryptionError := true |}.

(** The array [cleanupFiles] loops over. *)
Definition files_of (files : FilesArg) : list JsFile :=
  match files with
  | Array l => l
  | NotArray f => [f]
  end.

(** The paths [cleanupFiles] acts on: the non-empty strings. *)
Fixpoint named (files : list JsFile) : list string :=
  match files with
  | [] => []
  | JString p :: rest =>
      if String.eqb p "" then named rest else p :: named rest
  | _ :: rest => named rest
  end.

(** Sample uploads, with page numbers for pages: two plain documents and an
    encrypted one, all three on the disk, and a file that does not load. *)
Definition upload_a : Upload nat :=
  {| upload_path := "uploads/1-a.pdf"; originalname := "a.pdf";
     content := Loaded false [1%nat; 2%nat] |}.
Definition upload_b_locked : Upload nat :=
  {| upload_path := "uploads/2-b.pdf"; originalname := "b.pdf";
     content := Loaded true [3%nat] |}.
Definition upload_c : Upload nat :=
  {| upload_path := "uploads/3-c.pdf"; originalname := "c.pdf";
     content := Loaded false [4%nat] |}.
Definition upload_d_corrupt : Upload nat :=
  {| upload_path := "uploads/4-d.pdf"; originalname := "d.pdf";
     content := LoadError "not a PDF" |}.
Definition sample_disk : gset string :=
  {[ "uploads/1-a.pdf"%string; "uploads/2-b.pdf"%string;
     "uploads/3-c.pdf"%string ]}.

(** ** The earlier server file: the text of a converted document

    The chain of [replace] calls of the conversion route: every tag
    [/<[^>]*>/g] becomes a space, every run of white space [/\s+/g] becomes
    one space, the entities nbsp, amp, lt, gt, quot and #39 are decoded in
    that order, the result is trimmed, and the default message stands in
    when nothing is left. *)

(** [s.replace(/<[^>]*>/g, ' ')]: a [<] starts a match when a [>] follows
    it somewhere, the match ends at the first such [>], and the scan goes
    on after it.  [inTag] holds inside a match. *)
Fixpoint strip_tags (inTag : bool) (s : string) : string :=
  match s with
  | EmptyString => EmptyString
  | String c r =>
      if inTag then
        if Ascii.eqb c ">" then String " " (strip_tags false r)
        else strip_tags true r
      else if Ascii.eqb c "<" && includes ">" r then strip_tags true r
      else String c (strip_tags false r)
  end.

(** [s.replace(/\s+/g, ' ')]: [prev] holds when the previous character was
    white space, already replaced. *)
Fixpoint collapse_spaces (prev : bool) (s : string) : string :=
  match s with
  | EmptyString => EmptyString
  | String c r =>
      if is_white c then
        if prev then collapse_spaces true r
        else String " " (collapse_spaces true r)
      else String c (collapse_spaces false r)
  end.

(** [s.replace(/pat/g, rep)] for a literal, non-empty [pat]: [skip] counts
    the characters of a match still to pass over. *)
Fixpoint replace_from (pat rep : string) (skip : nat) (s : string) : string :=
  match s with
  | EmptyString => EmptyString
  | String c r =>
      match skip with
      | S k => replace_from pat rep k r
      | O =>
          if String.prefix pat s
          then rep +:+ replace_from pat rep (String.length pat - 1) r
          else String c (replace_from pat rep 0 r)
      end
  end.

Definition replace_all (pat rep s : string) : string :=
  replace_from pat rep 0 s.

Definition default_text : string :=
  "Document converted from Word to PDF. No readable text content found. This may be due to complex formatting, images, or tables in the original document.".

Definition decode_entities (s : string) : string :=
  replace_all "&#39;" "'"
    (replace_all "&quot;" (String "034" EmptyString)
      (replace_all "&gt;" ">"
        (replace_all "&lt;" "<"
          (replace_all "&amp;" "&"
            (replace_all "&nbsp;" " " s))))).

Definition extract_text (html : string) : string :=
  let text :=
    trim (decode_entities (collapse_spaces false (strip_tags false html))) in
  match text with
  | EmptyString => default_text
  | _ => text
  end.

(** No white space at the start. *)
Definition starts_clean (s : string) : bool :=
  match s with
  | String c _ => negb (is_white c)
  | EmptyString => true
  end.

(** White space only as plain spaces. *)
Fixpoint only_plain_spaces (s : string) : bool :=
  match s with
  | String c r =>
      (negb (is_white c) || Ascii.eqb c " ") && only_plain_spaces r
  | EmptyString => true
  end.

(** No tag is left: no [<] with a [>] somewhere after it. *)
Fixpoint no_tag (s : string) : bool :=
  match s with
  | String c r => negb (Ascii.eqb c "<" && includes ">" r) && no_tag r
  | EmptyString => true
  end.

(* ================================================================== *)
(** * Properties *)

(** ** Exact numbers *)

Section XqFacts.
Local Open Scope Qc_scope.

Lemma Qc_sign_Eq q : Qc_sign q = Eq <-> q = 0.
Proof. unfold Qc_sign. symmetry. apply Qceq_alt. Qed.

Lemma Qc_ltb_lt a b : Qc_ltb a b = true <-> a < b.
Proof.
  unfold Qc_ltb. rewrite Qclt_alt. destruct (a ?= b); intuition congruence.
Qed.

Lemma Qc_leb_le a b : Qc_leb a b = true <-> a <= b.
Proof.
  unfold Qc_leb. rewrite Qcle_alt. destruct (a ?= b); intuition congruence.
Qed.

Lemma Qc_pos_neq0 (c : Qc) : 0 < c -> c <> 0.
Proof. intros Hc ->. exact (Qclt_not_eq _ _ Hc eq_refl). Qed.

Lemma Num_ext (p q : Qc) : (this p == this q)%Q -> Num p = Num q.
Proof. intros E. f_equal. apply Qc_is_canon. exact E. Qed.

Lemma xq_div_finite (p q : Qc) :
  q <> 0 -> xq_div (Num p) (Num q) = Num (p / q).
Proof.
  intros Hq. unfold xq_div.
  destruct (Qc_sign q) eqn:E; try reflexivity.
  apply Qc_sign_Eq in E. contradiction.
Qed.

(** On finite numbers and a canvas without a zero side the mapper computes
    the rational formula. *)
Lemma convertCoords_finite (x y cw ch pw ph : Qc) :
  cw <> 0 -> ch <> 0 ->
  convertCoords (Num cw) (Num ch) (Num pw) (Num ph) (Num x) (Num y)
  = (Num (x / cw * pw), Num (ph - y / ch * ph)).
Proof.
  intros Hcw Hch. unfold convertCoords. cbn [ndiv nmul nsub xq_number].
  rewrite !xq_div_finite by assumption. reflexivity.
Qed.

Lemma Qc_ratio_unit (x c : Qc) : 0 < c -> 0 <= x <= c -> 0 <= x / c <= 1.
Proof.
  intros Hc [H0 H1].
  assert (E : x / c * c = x) by (field; apply Qc_pos_neq0, Hc).
  split; apply (Qcmult_lt_0_le_reg_r _ _ c Hc); rewrite E.
  - rewrite Qcmult_0_l. exact H0.
  - rewrite Qcmult_1_l. exact H1.
Qed.

Lemma Qc_scale_unit (t p : Qc) : 0 <= t <= 1 -> 0 <= p -> 0 <= t * p <= p.
Proof.
  intros [H0 H1] Hp. split.
  - apply Qcmult_nonneg_nonneg; assumption.
  - rewrite <- (Qcmult_1_l p) at 2. apply Qcmult_le_compat_r; assumption.
Qed.

Lemma Qc_flip_unit (t p : Qc) : 0 <= t * p <= p -> 0 <= p - t * p <= p.
Proof.
  intros [H0 H1]. split.
  - apply Qcle_minus_iff in H1. exact H1.
  - apply Qcle_minus_iff.
    replace (p + - (p - t * p)) with (t * p) by ring. exact H0.
Qed.

Lemma xq_div_zero_not_finite (a : xq) : is_finite (xq_div a (Num 0)) = false.
Proof.
  destruct a as [p | | |]; cbn; try reflexivity.
  destruct (Qc_sign p); reflexivity.
Qed.

Lemma xq_mul_not_finite_l (a b : xq) :
  is_finite a = false -> is_finite (xq_mul a b) = false.
Proof.
  destruct a as [p | | |]; intros Ha; try discriminate;
    destruct b as [q | | |]; cbn; try reflexivity;
    destruct (Qc_sign q); reflexivity.
Qed.

Lemma xq_sub_not_finite_r (a b : xq) :
  is_finite b = false -> is_finite (xq_sub a b) = false.
Proof.
  destruct b as [q | | |]; intros Hb; try discriminate;
    destruct a as [p | | |]; reflexivity.
Qed.

End XqFacts.

(** ** The coordinate mapper *)

Section Mapper.
Local Open Scope Qc_scope.

(** C1.  On a canvas whose sides are not zero the mapper returns exactly
    pageX = (x / cw) * pw and pageY = ph - (y / ch) * ph; in particular the
    canvas origin (0, 0) goes to the page point (0, ph) and the canvas
    corner (cw, ch) to (pw, 0). *)
Theorem convertCoords_formula (x y cw ch pw ph : Qc) :
  cw <> 0 -> ch <> 0 ->
  convertCoords (Num cw) (Num ch) (Num pw) (Num ph) (Num x) (Num y)
    = (Num (x / cw * pw), Num (ph - y / ch * ph))
  /\ convertCoords (Num cw) (Num ch) (Num pw) (Num ph) (Num 0) (Num 0)
    = (Num 0, Num ph)
  /\ convertCoords (Num cw) (Num ch) (Num pw) (Num ph) (Num cw) (Num ch)
    = (Num pw, Num 0).
Proof.
  intros Hcw Hch. rewrite !convertCoords_finite by assumption.
  repeat split; f_equal; f_equal; field; assumption.
Qed.

Lemma convertCoords_formula_witness :
  Qz 300 <> 0 /\ Qz 400 <> 0
  /\ convertCoords (Num (Qz 300)) (Num (Qz 400)) (Num (Qz 600)) (Num (Qz 800))
       (Num (Qz 300)) (Num (Qz 400))
     = (Num (Qz 600), Num 0).
Proof.
  assert (H3 : Qz 300 <> 0) by (intros E; discriminate E).
  assert (H4 : Qz 400 <> 0) by (intros E; discriminate E).
  split; [exact H3 | split; [exact H4 |]].
  exact (proj2 (proj2 (convertCoords_formula 0 0 _ _ (Qz 600) (Qz 800) H3 H4))).
Defined.

(** C8.  With a positive canvas and a page of non-negative size, a source
    point inside the canvas rectangle is mapped to a point inside the page
    rectangle. *)
Theorem convertCoords_in_bounds (x y cw ch pw ph : Qc) :
  0 < cw -> 0 < ch -> 0 <= pw -> 0 <= ph ->
  0 <= x <= cw -> 0 <= y <= ch ->
  exists pageX pageY : Qc,
    convertCoords (Num cw) (Num ch) (Num pw) (Num ph) (Num x) (Num y)
      = (Num pageX, Num pageY)
    /\ 0 <= pageX <= pw /\ 0 <= pageY <= ph.
Proof.
  intros Hcw Hch Hpw Hph Hx Hy.
  exists (x / cw * pw), (ph - y / ch * ph). split; [| split].
  - apply convertCoords_finite; apply Qc_pos_neq0; assumption.
  - apply Qc_scale_unit; [apply Qc_ratio_unit |]; assumption.
  - apply Qc_flip_unit, Qc_scale_unit; [apply Qc_ratio_unit |]; assumption.
Qed.

End Mapper.

(** ** The annotation loop *)

Section Loop.
Context {num : Type} `{JsNumber num}.

Lemma for_of_app {A St : Type} (body : St -> A -> Result St) (s : St) (l1 l2 : list A) :
  for_of body s (l1 ++ l2) = bind (for_of body s l1) (fun s' => for_of body s' l2).
Proof.
  revert s. induction l1 as [| a l1 IH]; intros s; cbn; [reflexivity |].
  destruct (body s a); cbn; [apply IH | reflexivity].
Qed.

Lemma annotate_one_skip (pages : list (Size num)) doc ann :
  out_of_range pages ann = true -> annotate_one pages doc ann = Ok doc.
Proof. intros E. unfold annotate_one. rewrite E. reflexivity. Qed.

Lemma annotate_one_complete (pages : list (Size num)) doc ann :
  complete pages ann = true ->
  exists calls, annotate_one pages doc ann = Ok (doc ++ calls).
Proof.
  unfold complete, annotate_one.
  destruct (out_of_range pages ann); cbn.
  - intros _. exists []. rewrite app_nil_r. reflexivity.
  - destruct (page_at pages (page ann)) as [[i pg] |]; cbn; [| discriminate].
    destruct (canvasSize ann) as [cs |]; cbn; [| discriminate].
    destruct (String.eqb (type ann) "highlight").
    + destruct (rect ann) as [r |]; cbn; [| discriminate]. intros _.
      eexists. reflexivity.
    + destruct (String.eqb (type ann) "draw").
      * destruct (paths ann) as [pts |]; cbn; [| discriminate]. intros _.
        match goal with |- context [if ?b then _ else _] => destruct b end.
        -- exists []. rewrite app_nil_r. reflexivity.
        -- eexists. reflexivity.
      * intros _. exists []. rewrite app_nil_r. reflexivity.
Qed.

Lemma annotate_one_incomplete (pages : list (Size num)) doc ann :
  complete pages ann = false ->
  exists e, annotate_one pages doc ann = Throw e.
Proof.
  unfold complete, annotate_one.
  destruct (out_of_range pages ann); cbn; [discriminate |].
  destruct (page_at pages (page ann)) as [[i pg] |]; cbn;
    [| intros _; eexists; reflexivity].
  destruct (canvasSize ann) as [cs |]; cbn;
    [| intros _; eexists; reflexivity].
  destruct (String.eqb (type ann) "highlight").
  - destruct (rect ann) as [r |]; cbn; [discriminate |].
    intros _; eexists; reflexivity.
  - destruct (String.eqb (type ann) "draw"); [| discriminate].
    destruct (paths ann) as [pts |]; cbn; [discriminate |].
    intros _; eexists; reflexivity.
Qed.

Lemma for_of_annotate_ok (pages : list (Size num)) anns doc :
  (exists doc', for_of (annotate_one pages) doc anns = Ok doc')
  <-> forallb (complete pages) anns = true.
Proof.
  revert doc. induction anns as [| a anns IH]; intros doc; cbn.
  - split; [reflexivity | intros _; eexists; reflexivity].
  - destruct (complete pages a) eqn:Ea; cbn.
    + destruct (annotate_one_complete pages doc a Ea) as [calls ->]. cbn.
      apply IH.
    + destruct (annotate_one_incomplete pages doc a Ea) as [e ->]. cbn.
      split; [intros [doc' E]; discriminate E | discriminate].
Qed.

Lemma annotate_sends_iff (pages : list (Size num)) anns :
  (exists calls, annotate pages anns = SendPdf calls)
  <-> forallb (complete pages) anns = true.
Proof.
  rewrite <- (for_of_annotate_ok pages anns []). unfold annotate.
  destruct (for_of (annotate_one pages) [] anns) as [doc | e].
  - split; intros _; eexists; reflexivity.
  - split; intros [d E]; discriminate E.
Qed.
End Loop.

(** ** Page indices over the exact numbers *)

Section XqPages.
Local Open Scope Qc_scope.

Lemma Qz_lt (a b : Z) : (a < b)%Z <-> Qz a < Qz b.
Proof.
  unfold Qclt, Qz, Q2Qc, this. rewrite !Qred_correct, <- Zlt_Qlt. reflexivity.
Qed.

Lemma Qz_le (a b : Z) : (a <= b)%Z <-> Qz a <= Qz b.
Proof.
  unfold Qcle, Qz, Q2Qc, this. rewrite !Qred_correct, <- Zle_Qle. reflexivity.
Qed.

Lemma xq_index_nat (i : nat) : xq_index (Num (Qz (Z.of_nat i))) = Some i.
Proof.
  unfold xq_index, Qz, Q2Qc, this. rewrite inject_Z_Qred. cbn.
  destruct i as [| i]; cbn; [reflexivity |].
  f_equal. apply SuccNat2Pos.id_succ.
Qed.

Lemma page_in_range (pages : list (Size xq)) (ann : Annotation xq) (i : nat) pg :
  page ann = Num (Qz (Z.of_nat i)) -> pages !! i = Some pg ->
  out_of_range pages ann = false /\ page_at pages (page ann) = Some (i, pg).
Proof.
  intros Hp Hi. pose proof (lookup_lt_Some _ _ _ Hi) as Hlt. split.
  - unfold out_of_range. rewrite Hp. cbn.
    apply orb_false_iff. split.
    + apply not_true_is_false. rewrite Qc_ltb_lt. intros Hneg.
      apply (Qz_lt _ 0) in Hneg. lia.
    + apply not_true_is_false. rewrite Qc_leb_le. intros Hge.
      apply Qz_le in Hge. lia.
  - unfold page_at. rewrite Hp. cbn [nindex xq_number].
    rewrite xq_index_nat, Hi. reflexivity.
Qed.
End XqPages.

(** ** The draw calls *)

Section XqCalls.
Local Open Scope Qc_scope.

Lemma Qc_div_nonneg (h c : Qc) : 0 <= h -> 0 < c -> 0 <= h / c.
Proof.
  intros Hh Hc. apply (Qcmult_lt_0_le_reg_r _ _ c Hc).
  replace (h / c * c) with h by (field; apply Qc_pos_neq0, Hc).
  rewrite Qcmult_0_l. exact Hh.
Qed.

Lemma Qc_min_r (a b : Qc) : b <= a -> Qc_min a b = b.
Proof.
  intros Hba. unfold Qc_min. destruct (Qc_leb a b) eqn:E; [| reflexivity].
  apply Qc_leb_le in E. apply Qcle_antisym; assumption.
Qed.

Lemma Qc_abs_nonneg (a : Qc) : 0 <= a -> Qc_abs a = a.
Proof.
  intros Ha. unfold Qc_abs. apply Qc_leb_le in Ha. rewrite Ha. reflexivity.
Qed.

(** C2.  A highlight on a valid page, with a positive canvas, a rectangle
    of non-negative height and a page of non-negative height, issues exactly
    one [drawRectangle]: the two corners (x, y) and (x + width, y + height)
    are mapped independently, the origin y is the smaller of the two mapped
    y values, the width is (width / cw) * pw, the height is the absolute
    difference of the two mapped y values, and the opacity is 0.3 whatever
    the colour. *)
Theorem highlight_draw_call (pages : list (Size xq)) doc (ann : Annotation xq)
    (i : nat) (x y w h cw ch pw ph : Qc) :
  page ann = Num (Qz (Z.of_nat i)) ->
  pages !! i = Some {| width := Num pw; height := Num ph |} ->
  canvasSize ann = Some {| width := Num cw; height := Num ch |} ->
  type ann = "highlight"%string ->
  rect ann = Some {| rect_x := Num x; rect_y := Num y;
                     rect_width := Num w; rect_height := Num h |} ->
  0 < cw -> 0 < ch -> 0 <= h -> 0 <= ph ->
  exists pdfX pdfY1 pdfX2 pdfY2 : Qc,
    convertCoords (Num cw) (Num ch) (Num pw) (Num ph) (Num x) (Num y)
      = (Num pdfX, Num pdfY1)
    /\ convertCoords (Num cw) (Num ch) (Num pw) (Num ph)
         (Num (x + w)) (Num (y + h)) = (Num pdfX2, Num pdfY2)
    /\ annotate_one pages doc ann
       = Ok (doc ++ [drawRectangle i (Num pdfX) (Num (Qc_min pdfY1 pdfY2))
                       (Num (w / cw * pw)) (Num (Qc_abs (pdfY1 - pdfY2)))
                       (hexToRgb (color ann)) (Num (Qz 3 / Qz 10))]).
Proof.
  intros Hp Hi Hcs Hty Hr Hcw Hch Hh Hph.
  pose proof (Qc_pos_neq0 _ Hcw) as Ncw. pose proof (Qc_pos_neq0 _ Hch) as Nch.
  destruct (page_in_range pages ann i _ Hp Hi) as [Hin Hat].
  exists (x / cw * pw), (ph - y / ch * ph),
         ((x + w) / cw * pw), (ph - (y + h) / ch * ph).
  split; [apply convertCoords_finite; assumption |].
  split; [apply convertCoords_finite; assumption |].
  assert (Hd : 0 <= (ph - y / ch * ph) - (ph - (y + h) / ch * ph)).
  { replace ((ph - y / ch * ph) - (ph - (y + h) / ch * ph))
      with (h / ch * ph) by (field; exact Nch).
    apply Qcmult_nonneg_nonneg; [apply Qc_div_nonneg |]; assumption. }
  rewrite Qc_abs_nonneg by exact Hd.
  rewrite Qc_min_r by (apply Qcle_minus_iff; exact Hd).
  unfold annotate_one. rewrite Hin, Hat, Hcs, Hty, Hr.
  cbn -[convertCoords xq_div xq_mul xq_sub highlight_opacity].
  rewrite !convertCoords_finite by assumption.
  rewrite xq_div_finite by assumption.
  reflexivity.
Qed.

(** C6.  A draw annotation on a valid page issues no call when it has
    fewer than 2 points (and does not raise), and otherwise exactly one
    [drawSvgPath] whose path goes through every point, mapped on its own and
    in the original order, with round line caps and the annotation's stroke
    width, 3 when that is unset or zero. *)
Theorem draw_stroke_call (pages : list (Size xq)) doc (ann : Annotation xq)
    (i : nat) pg cs pts (sw : option Qc) :
  page ann = Num (Qz (Z.of_nat i)) ->
  pages !! i = Some pg ->
  canvasSize ann = Some cs ->
  type ann = "draw"%string ->
  paths ann = Some pts ->
  strokeWidth ann = option_map Num sw ->
  exists path : SvgPath xq,
    path_points path
      = map (fun p => convertCoords (width cs) (height cs)
                        (width pg) (height pg) (fst p) (snd p)) pts
    /\ annotate_one pages doc ann
       = Ok (doc ++ if (length pts <? 2)%nat then []
                    else [drawSvgPath i path (hexToRgb (color ann))
                            (Num (default_stroke sw)) Round]).
Proof.
  intros Hp Hi Hcs Hty Hpts Hsw.
  destruct (page_in_range pages ann i _ Hp Hi) as [Hin Hat].
  set (convert := fun p : xq * xq => convertCoords _ _ _ _ (fst p) (snd p)).
  exists {| moveTo := head (map convert pts); lineTo := tail (map convert pts) |}.
  split.
  - unfold path_points. cbn [moveTo lineTo].
    destruct (map convert pts); reflexivity.
  - unfold annotate_one. rewrite Hin, Hat, Hcs, Hty, Hpts, Hsw.
    cbn [read bind fst snd String.eqb Ascii.eqb Bool.eqb].
    destruct (length pts <? 2)%nat; [rewrite app_nil_r; reflexivity |].
    do 3 f_equal.
    destruct sw as [w |]; cbn; [| reflexivity].
    destruct (Qc_eq_dec w 0) as [-> | Hw]; [reflexivity |].
    destruct (Qc_sign w) eqn:E; try reflexivity.
    apply Qc_sign_Eq in E. contradiction.
Qed.
End XqCalls.

(** ** Witnesses on the scenario *)

Section ScenarioWitnesses.
Local Open Scope Qc_scope.

Lemma convertCoords_in_bounds_witness :
  0 < Qz 300 /\ 0 <= Qz 30 <= Qz 300
  /\ exists pageX pageY : Qc,
       convertCoords (Num (Qz 300)) (Num (Qz 400)) (Num (Qz 600)) (Num (Qz 800))
         (Num (Qz 30)) (Num (Qz 40)) = (Num pageX, Num pageY)
       /\ 0 <= pageX <= Qz 600 /\ 0 <= pageY <= Qz 800.
Proof.
  assert (Hlt : forall b, (0 < b)%Z -> 0 < Qz b)
    by (intros b; apply (proj1 (Qz_lt 0 b))).
  assert (Hle : forall a b, (a <= b)%Z -> Qz a <= Qz b)
    by (intros a b; apply (proj1 (Qz_le a b))).
  split; [apply Hlt; lia |].
  split; [split; [apply (Hle 0%Z) | apply Hle]; lia |].
  apply convertCoords_in_bounds;
    first [ apply Hlt; lia
          | apply (Hle 0%Z); lia
          | split; [apply (Hle 0%Z) | apply Hle]; lia ].
Defined.

Lemma highlight_draw_call_witness :
  exists pdfX pdfY1 pdfX2 pdfY2 : Qc,
    convertCoords (Num (Qz 300)) (Num (Qz 400)) (Num (Qz 600)) (Num (Qz 800))
      (Num (Qz 30)) (Num (Qz 40)) = (Num pdfX, Num pdfY1)
    /\ convertCoords (Num (Qz 300)) (Num (Qz 400)) (Num (Qz 600)) (Num (Qz 800))
         (Num (Qz 30 + Qz 60)) (Num (Qz 40 + Qz 80)) = (Num pdfX2, Num pdfY2)
    /\ annotate_one scenario_pages [] scenario_highlight
       = Ok ([] ++ [drawRectangle 0 (Num pdfX) (Num (Qc_min pdfY1 pdfY2))
                      (Num (Qz 60 / Qz 300 * Qz 600))
                      (Num (Qc_abs (pdfY1 - pdfY2)))
                      (hexToRgb (color scenario_highlight))
                      (Num (Qz 3 / Qz 10))]).
Proof.
  apply (highlight_draw_call scenario_pages [] scenario_highlight 0
           (Qz 30) (Qz 40) (Qz 60) (Qz 80) (Qz 300) (Qz 400) (Qz 600) (Qz 800));
    try reflexivity; apply (proj1 (Qz_le 0 _)); lia.
Defined.

Lemma draw_stroke_call_witness :
  exists path : SvgPath xq,
    path_points path
      = map (fun p => convertCoords (Num (Qz 300)) (Num (Qz 400))
                        (Num (Qz 600)) (Num (Qz 800)) (fst p) (snd p))
            [(Num (Qz 0), Num (Qz 0)); (Num (Qz 150), Num (Qz 200));
             (Num (Qz 300), Num (Qz 400))]
    /\ annotate_one scenario_pages [] scenario_stroke
       = Ok ([] ++ [drawSvgPath 1 path (hexToRgb None)
                      (Num (default_stroke None)) Round]).
Proof.
  exact (draw_stroke_call scenario_pages [] scenario_stroke 1
           {| width := Num (Qz 600); height := Num (Qz 800) |}
           {| width := Num (Qz 300); height := Num (Qz 400) |}
           _ None eq_refl eq_refl eq_refl eq_refl eq_refl eq_refl).
Defined.

End ScenarioWitnesses.

(** ** The scenario evaluated *)

Lemma scenario_eval_xq :
  annotate (num:=xq) scenario_pages [scenario_highlight]
    = SendPdf [scenario_call 560].
Proof.
  cbv [annotate for_of annotate_one scenario_pages scenario_highlight bind read].
  cbn. unfold scenario_call, highlight_opacity, hexToRgb. cbn.
  do 3 f_equal; try (apply Num_ext; vm_compute; reflexivity).
  f_equal; apply Num_ext; vm_compute; reflexivity.
Qed.

Lemma scenario_eval_float :
  annotate (num:=float) scenario_pages [scenario_highlight]
    = SendPdf [scenario_call 560].
Proof. vm_compute. reflexivity. Qed.

(** C3, as the code computes it.  On the two-page 600x800 document, the red
    highlight of page 0 with canvas 300x400 and rectangle
    (30, 40, 60, 80) issues exactly one call,
    [drawRectangle] on page 0 with x = 60, y = 560, width 120, height 160,
    red, opacity 0.3: the origin y is 800 - (40 + 80) / 400 * 800 = 560.
    This holds in exact arithmetic and in binary64. *)
Theorem scenario_highlight_call :
  annotate (num:=xq) scenario_pages [scenario_highlight]
    = SendPdf [scenario_call 560]
  /\ annotate (num:=float) scenario_pages [scenario_highlight]
    = SendPdf [scenario_call 560].
Proof. split; [exact scenario_eval_xq | exact scenario_eval_float]. Qed.

(** The call of the scenario is not the one with origin y = 640. *)
Lemma scenario_highlight_not_640 :
  annotate (num:=xq) scenario_pages [scenario_highlight]
    <> SendPdf [scenario_call 640]
  /\ annotate (num:=float) scenario_pages [scenario_highlight]
    <> SendPdf [scenario_call 640].
Proof.
  split.
  - rewrite scenario_eval_xq. intros E. injection E as E. discriminate E.
  - rewrite scenario_eval_float. intros E.
    apply (f_equal (fun r => match r with
                             | SendPdf [drawRectangle _ _ y _ _ _ _] =>
                                 PrimFloat.eqb y 560%float
                             | _ => false
                             end)) in E.
    vm_compute in E. discriminate E.
Qed.

(** ** A canvas with a zero side *)

(** C5, as the code behaves.  The mapper has no guard: it never raises, but
    with a zero canvas width the mapped x is not a finite number, and with
    a zero canvas height the mapped y is not a finite number (they are
    [NaN] or an infinity, not the page origin), whatever the point and the
    page. *)
Theorem convertCoords_zero_canvas (x y cw ch pw ph : xq) :
  is_finite (fst (convertCoords (Num 0) ch pw ph x y)) = false
  /\ is_finite (snd (convertCoords cw (Num 0) pw ph x y)) = false.
Proof.
  split; cbn.
  - apply xq_mul_not_finite_l, xq_div_zero_not_finite.
  - apply xq_sub_not_finite_r, xq_mul_not_finite_l, xq_div_zero_not_finite.
Qed.

(** On a 0x0 canvas the point (5, 5) of a 600x800 page is mapped to
    (Infinity, -Infinity) and the point (0, 0) to (NaN, NaN), in exact
    arithmetic and in binary64: the result is not a defined page point. *)
Lemma convertCoords_zero_canvas_unguarded :
  convertCoords (Num 0) (Num 0) (Num (Qz 600)) (Num (Qz 800))
    (Num (Qz 5)) (Num (Qz 5)) = (PosInf, NegInf)
  /\ convertCoords (Num 0) (Num 0) (Num (Qz 600)) (Num (Qz 800))
       (Num 0) (Num 0) = (NaN, NaN)
  /\ convertCoords 0%float 0%float 600%float 800%float 5%float 5%float
     = (infinity, neg_infinity)
  /\ ~ (exists pageX pageY : Qc,
          convertCoords (Num 0) (Num 0) (Num (Qz 600)) (Num (Qz 800))
            (Num (Qz 5)) (Num (Qz 5)) = (Num pageX, Num pageY)).
Proof.
  repeat split. intros (pageX & pageY & E). discriminate E.
Qed.

(** ** Annotations that are skipped and annotations that raise *)

Section Batch.
Context {num : Type} `{JsNumber num}.

Lemma annotate_skip (pages : list (Size num)) (l1 l2 : list (Annotation num))
    (a : Annotation num) :
  out_of_range pages a = true ->
  annotate pages (l1 ++ a :: l2) = annotate pages (l1 ++ l2).
Proof.
  intros Ha. unfold annotate. rewrite !for_of_app.
  destruct (for_of (annotate_one pages) [] l1) as [doc | e]; cbn;
    [| reflexivity].
  rewrite (annotate_one_skip pages doc a Ha). reflexivity.
Qed.

End Batch.

(** ** The loop with pdf-lib's checks *)

Section Checked.
Context {num : Type} `{JsNumber num}.
Variable lib : list (DrawCall num) -> DrawCall num -> option Exception.

(** The loop with pdf-lib's checks goes on only where the loop of
    [annotate_one] does, with the same calls. *)
Lemma annotate_one_lib_ok (pages : list (Size num)) doc ann doc' :
  annotate_one_lib lib pages doc ann = Ok doc' ->
  annotate_one pages doc ann = Ok doc'.
Proof.
  unfold annotate_one_lib, annotate_one, draw.
  destruct (out_of_range pages ann); [trivial |].
  destruct (page_at pages (page ann)) as [[i pg] |]; cbn; [| trivial].
  destruct (canvasSize ann) as [cs |]; cbn; [| trivial].
  destruct (String.eqb (type ann) "highlight").
  - destruct (rect ann) as [r |]; cbn; [| trivial].
    match goal with |- context [lib ?d ?c] => destruct (lib d c) end;
      [discriminate | trivial].
  - destruct (String.eqb (type ann) "draw"); [| trivial].
    destruct (paths ann) as [pts |]; cbn; [| trivial].
    match goal with |- context [if ?b then _ else _] => destruct b end;
      [trivial |].
    match goal with |- context [lib ?d ?c] => destruct (lib d c) end;
      [discriminate | trivial].
Qed.

Lemma for_of_annotate_lib_ok (pages : list (Size num)) anns doc doc' :
  for_of (annotate_one_lib lib pages) doc anns = Ok doc' ->
  for_of (annotate_one pages) doc anns = Ok doc'.
Proof.
  revert doc. induction anns as [| a anns IH]; intros doc; cbn; [trivial |].
  destruct (annotate_one_lib lib pages doc a) as [d |] eqn:E; cbn;
    [| discriminate].
  rewrite (annotate_one_lib_ok pages doc a d E). cbn. apply IH.
Qed.

Lemma annotate_lib_sends (pages : list (Size num)) anns calls :
  annotate_lib lib pages anns = SendPdf calls ->
  annotate pages anns = SendPdf calls.
Proof.
  unfold annotate_lib, annotate.
  destruct (for_of (annotate_one_lib lib pages) [] anns) as [d |] eqn:E;
    [| discriminate].
  rewrite (for_of_annotate_lib_ok pages anns [] d E). trivial.
Qed.

(** C4, as the code behaves.  A malformed annotation is given no default
    and does surface: when some annotation of the list is not skipped for
    its page index and its page index denotes no page, or it has no canvas
    size, or it lacks the field its type reads, the route answers status
    500, without a document, whatever the other annotations are and
    whatever pdf-lib does with the calls made before. *)
Theorem incomplete_annotation_fails (pages : list (Size num))
    (anns : list (Annotation num)) (a : Annotation num) :
  a ∈ anns -> complete pages a = false ->
  exists e, annotate_lib lib pages anns = Status500 e.
Proof.
  intros Ha Hc.
  destruct (annotate_lib lib pages anns) as [calls | e] eqn:E;
    [| exists e; reflexivity].
  apply annotate_lib_sends in E.
  assert (Hs : exists calls, annotate pages anns = SendPdf calls)
    by (exists calls; exact E).
  apply annotate_sends_iff in Hs.
  rewrite forallb_forall in Hs.
  rewrite (Hs a) in Hc; [discriminate Hc |].
  apply list_elem_of_In, Ha.
Qed.

End Checked.

(** With a pdf-lib that takes every call the two loops are one. *)
Lemma annotate_lib_takes_all {num : Type} `{JsNumber num}
    (pages : list (Size num)) (anns : list (Annotation num)) :
  annotate_lib takes_all pages anns = annotate pages anns.
Proof.
  unfold annotate_lib, annotate.
  assert (E : forall doc,
             for_of (annotate_one_lib takes_all pages) doc anns
             = for_of (annotate_one pages) doc anns).
  { induction anns as [| a anns IH]; intros doc; cbn; [reflexivity |].
    change (annotate_one_lib takes_all pages doc a)
      with (annotate_one pages doc a).
    destruct (annotate_one pages doc a); cbn; [apply IH | reflexivity]. }
  rewrite E. reflexivity.
Qed.

Lemma incomplete_annotation_fails_witness :
  exists e,
    annotate_lib (num:=xq) takes_all scenario_pages
      [scenario_highlight; without_canvasSize scenario_highlight]
    = Status500 e.
Proof.
  apply (incomplete_annotation_fails takes_all scenario_pages _
           (without_canvasSize scenario_highlight));
    [right; left | reflexivity].
Defined.

(** An annotation without [canvasSize] on page 0 makes the route answer
    status 500: no document is returned, alone or after a well-formed
    annotation. *)
Lemma missing_canvasSize_fails :
  annotate (num:=xq) scenario_pages [without_canvasSize scenario_highlight]
    = Status500 (TypeError "width")
  /\ annotate (num:=xq) scenario_pages
       [scenario_highlight; without_canvasSize scenario_highlight]
     = Status500 (TypeError "width")
  /\ ~ (exists calls,
          annotate (num:=xq) scenario_pages
            [without_canvasSize scenario_highlight] = SendPdf calls).
Proof.
  assert (E : annotate (num:=xq) scenario_pages
                [without_canvasSize scenario_highlight]
              = Status500 (TypeError "width")) by reflexivity.
  split; [exact E | split; [reflexivity |]].
  intros [calls Hc]. rewrite E in Hc. discriminate Hc.
Qed.

Section Skipping.
Local Open Scope Qc_scope.




(** The page indices -1 and 2 (the page count) are skipped on the two-page
    document, in exact arithmetic and in binary64. *)
Example skipped_indices :
  annotate (num:=xq) scenario_pages
    [on_page (Num (Qz (-1))) scenario_highlight] = SendPdf []
  /\ annotate (num:=xq) scenario_pages
       [on_page (Num (Qz 2)) scenario_highlight] = SendPdf []
  /\ annotate (num:=float) scenario_pages
       [on_page (-1)%float scenario_highlight] = SendPdf []
  /\ annotate (num:=float) scenario_pages
       [on_page 2%float scenario_highlight] = SendPdf [].
Proof. repeat split. Qed.

End Skipping.

(** ** The colour pattern *)

Section Regex.

Lemma string_app_assoc (s1 s2 s3 : string) :
  (s1 +:+ s2) +:+ s3 = s1 +:+ (s2 +:+ s3).
Proof.
  induction s1 as [| a s1 IH]; [reflexivity |].
  change (String a ((s1 +:+ s2) +:+ s3) = String a (s1 +:+ (s2 +:+ s3))).
  f_equal. exact IH.
Qed.

Lemma string_app_nil_r (s : string) : s +:+ EmptyString = s.
Proof.
  induction s as [| a s IH]; [reflexivity |].
  change (String a (s +:+ EmptyString) = String a s). f_equal. exact IH.
Qed.

Lemma rep_sound (m : string -> captures -> continuation -> option captures)
    (r : regex) :
  (forall s caps k res, m s caps k = Some res ->
     exists s1 rest caps1,
       s = s1 +:+ rest /\ matches r s1 /\ k rest caps1 = Some res) ->
  forall n s caps k res, rep m n s caps k = Some res ->
    exists s1 rest caps1,
      s = s1 +:+ rest /\ matches (RRep n r) s1 /\ k rest caps1 = Some res.
Proof.
  intros Hm n. induction n as [| n IH]; intros s caps k res E; cbn in E.
  - exists EmptyString, s, caps. repeat split; [constructor | exact E].
  - apply Hm in E. destruct E as (s1 & rest1 & caps1 & -> & M1 & E).
    apply IH in E. destruct E as (s2 & rest & caps2 & -> & M2 & E).
    exists (s1 +:+ s2), rest, caps2. repeat split.
    + symmetry. apply string_app_assoc.
    + constructor; assumption.
    + exact E.
Qed.

(** Whatever the matcher accepts is a string of the pattern followed by
    what the continuation accepts. *)
Lemma rmatch_sound (r : regex) :
  forall s caps k res, rmatch r s caps k = Some res ->
    exists s1 rest caps1,
      s = s1 +:+ rest /\ matches r s1 /\ k rest caps1 = Some res.
Proof.
  induction r as [c | ranges | r1 IH1 r2 IH2 | r1 IH1 | n r1 IH1 | i r1 IH1];
    intros s caps k res E; cbn in E.
  - destruct s as [| a rest]; [discriminate |].
    destruct (Ascii.eqb (canonicalize a) (canonicalize c)) eqn:Ec;
      [| discriminate].
    apply Ascii.eqb_eq in Ec.
    exists (String a EmptyString), rest, caps.
    repeat split; [constructor; exact Ec | exact E].
  - destruct s as [| a rest]; [discriminate |].
    destruct (class_matches ranges a) eqn:Ec; [| discriminate].
    exists (String a EmptyString), rest, caps.
    repeat split; [constructor; exact Ec | exact E].
  - apply IH1 in E. destruct E as (s1 & rest1 & caps1 & -> & M1 & E).
    apply IH2 in E. destruct E as (s2 & rest & caps2 & -> & M2 & E).
    exists (s1 +:+ s2), rest, caps2. repeat split.
    + symmetry. apply string_app_assoc.
    + constructor; assumption.
    + exact E.
  - destruct (rmatch r1 s caps k) as [res' |] eqn:E1.
    + injection E as <-. apply IH1 in E1.
      destruct E1 as (s1 & rest & caps1 & -> & M1 & E1).
      exists s1, rest, caps1. repeat split; [constructor; exact M1 | exact E1].
    + exists EmptyString, s, caps. repeat split; [constructor | exact E].
  - apply (rep_sound (rmatch r1) r1 IH1) in E. exact E.
  - apply IH1 in E. destruct E as (s1 & rest & caps1 & -> & M1 & E).
    exists s1, rest, (<[i := Some (consumed (s1 +:+ rest) rest)]> caps1).
    repeat split; [constructor; exact M1 | exact E].
Qed.

Lemma exec_anchored_sound (r : regex) (groups : nat) (s : string) caps :
  exec_anchored r groups s = Some caps -> matches r s.
Proof.
  unfold exec_anchored. intros E. apply rmatch_sound in E.
  destruct E as (s1 & rest & caps1 & -> & M & E).
  destruct rest; [| discriminate].
  rewrite string_app_nil_r. inversion M; subst. assumption.
Qed.

Lemma hex_class_digit (a : ascii) :
  class_matches [("a", "f"); ("0", "9")]%char a = true -> is_hex_digit a = true.
Proof.
  destruct a as [[] [] [] [] [] [] [] []]; vm_compute; intros E;
    first [reflexivity | discriminate E].
Qed.

Lemma canonical_hash (a : ascii) :
  canonicalize a = canonicalize "#" -> a = "#"%char.
Proof.
  destruct a as [[] [] [] [] [] [] [] []]; vm_compute; intros E;
    first [reflexivity | discriminate E].
Qed.

Lemma matches_two_hex (s : string) :
  matches (RRep 2 hex_digit_class) s ->
  exists a b, s = String a (String b EmptyString)
              /\ is_hex_digit a = true /\ is_hex_digit b = true.
Proof.
  intros M. inversion M as [| | | | | | n r s1 s2 M1 M2 |]; subst.
  inversion M1 as [| rg a Ha | | | | | |]; subst.
  inversion M2 as [| | | | | | n r s1 s3 M3 M4 |]; subst.
  inversion M3 as [| rg b Hb | | | | | |]; subst.
  inversion M4; subst.
  exists a, b. repeat split; apply hex_class_digit; assumption.
Qed.

Lemma matches_hex_group (i : nat) (s : string) :
  matches (RGroup i (RRep 2 hex_digit_class)) s ->
  exists a b, s = String a (String b EmptyString)
              /\ is_hex_digit a = true /\ is_hex_digit b = true.
Proof. intros M. inversion M; subst. apply matches_two_hex. assumption. Qed.

(** The pattern only denotes 6-hex-digit strings with or without [#]. *)
Lemma matches_hex_color (s : string) :
  matches hex_color_regex s -> well_formed_hex s = true.
Proof.
  unfold hex_color_regex. intros M.
  inversion M as [| | r1 r2 s0 s123 M0 M123 | | | | |]; subst.
  inversion M123 as [| | r1 r2 s1 s23 M1 M23 | | | | |]; subst.
  inversion M23 as [| | r1 r2 s2 s3 M2 M3 | | | | |]; subst.
  apply matches_hex_group in M1, M2, M3.
  destruct M1 as (a1 & b1 & -> & Ha1 & Hb1).
  destruct M2 as (a2 & b2 & -> & Ha2 & Hb2).
  destruct M3 as (a3 & b3 & -> & Ha3 & Hb3).
  assert (H6 : six_hex_digits
                 (String a1 (String b1 (String a2 (String b2
                    (String a3 (String b3 EmptyString)))))) = true).
  { unfold six_hex_digits. cbn.
    rewrite Ha1, Hb1, Ha2, Hb2, Ha3, Hb3. reflexivity. }
  inversion M0 as [| | | r | r s0' M0' | | |]; subst.
  - cbn [String.app append]. change (well_formed_hex
      (String a1 (String b1 (String a2 (String b2
         (String a3 (String b3 EmptyString)))))) = true).
    unfold well_formed_hex.
    destruct (ascii_dec a1 "#") as [-> | Hne]; [discriminate Ha1 |].
    destruct a1 as [[] [] [] [] [] [] [] []]; first [exact H6 | congruence].
  - inversion M0' as [c a Hc | | | | | | |]; subst.
    apply canonical_hash in Hc. subst a. exact H6.
Qed.

End Regex.

Section Colour.
Context {num : Type} `{JsNumber num}.

(** C9.  When the colour is absent, or is a string that is not six
    hexadecimal digits with or without a leading [#], the colour used is
    yellow, [rgb(1, 1, 0)]. *)
Theorem hexToRgb_default (hex : option string) :
  (forall s, hex = Some s -> well_formed_hex s = false) ->
  hexToRgb hex = rgb (of_Z 1) (of_Z 1) (of_Z 0).
Proof.
  intros Hbad. destruct hex as [s |]; [| reflexivity].
  specialize (Hbad s eq_refl).
  destruct s as [| a s]; [reflexivity |].
  unfold hexToRgb.
  destruct (exec_anchored hex_color_regex 3 (String a s)) as [caps |] eqn:E;
    [| reflexivity].
  apply exec_anchored_sound, matches_hex_color in E. congruence.
Qed.

End Colour.

Lemma hexToRgb_default_witness :
  hexToRgb (num:=xq) (Some "#FF00"%string) = rgb (of_Z 1) (of_Z 1) (of_Z 0).
Proof.
  apply hexToRgb_default. intros s E. injection E as <-. reflexivity.
Defined.


Section ColourParsed.
Context {num : Type} `{JsNumber num}.

Lemma hex_digit_in_class (a : ascii) :
  is_hex_digit a = true ->
  class_matches [("a", "f"); ("0", "9")]%char a = true
  /\ Ascii.eqb (canonicalize a) (canonicalize "#") = false.
Proof.
  destruct a as [[] [] [] [] [] [] [] []]; vm_compute; intros E;
    first [discriminate E | split; reflexivity].
Qed.

Lemma hex_digit_plain (a : ascii) :
  is_hex_digit a = true ->
  is_white a = false /\ Ascii.eqb a "-" = false /\ Ascii.eqb a "+" = false
  /\ Ascii.eqb a "x" = false /\ Ascii.eqb a "X" = false
  /\ exists d, digit_value a = Some d /\ 0 <= d < 16.
Proof.
  destruct a as [[] [] [] [] [] [] [] []]; vm_compute; intros E;
    first [discriminate E
          | repeat split; eexists; split; [reflexivity |];
            split; [intros G | reflexivity]; discriminate G].
Qed.

(** Two hexadecimal digits parse to a byte. *)
Lemma parseInt_hex_pair (a b : ascii) :
  is_hex_digit a = true -> is_hex_digit b = true ->
  exists v, 0 <= v <= 255
            /\ parseInt (String a (String b EmptyString)) 16 = Some v.
Proof.
  intros Ha Hb.
  destruct (hex_digit_plain a Ha) as (Wa & Ma & Pa & _ & _ & da & Da & Ra).
  destruct (hex_digit_plain b Hb) as (_ & _ & _ & Xb & XXb & db & Db & Rb).
  exists (da * 16 + db). split; [lia |].
  unfold parseInt. cbn [trimStart]. rewrite Wa.
  unfold strip_sign. rewrite Ma, Pa.
  cbn [Z.eqb negb andb orb]. unfold strip_hex_prefix. rewrite Xb, XXb.
  rewrite andb_false_r.
  change ((16 <? 2) || (36 <? 16)) with false.
  change (16 =? 16)%positive with true. cbn iota beta.
  cbn [parse_digits]. rewrite Da, Db.
  destruct Ra as [Ra0 Ra1]. destruct Rb as [Rb0 Rb1].
  apply Z.ltb_lt in Ra1, Rb1. rewrite Ra1. cbn [default]. rewrite Rb1.
  cbn [default]. unfold id. f_equal. lia.
Qed.

Lemma six_hex_digits_inv (s : string) :
  six_hex_digits s = true ->
  exists a1 b1 a2 b2 a3 b3,
    s = String a1 (String b1 (String a2 (String b2
          (String a3 (String b3 EmptyString)))))
    /\ is_hex_digit a1 = true /\ is_hex_digit b1 = true
    /\ is_hex_digit a2 = true /\ is_hex_digit b2 = true
    /\ is_hex_digit a3 = true /\ is_hex_digit b3 = true.
Proof.
  unfold six_hex_digits. intros E. apply andb_true_iff in E.
  destruct E as [El Ef]. apply Nat.eqb_eq in El.
  destruct s as [| a1 [| b1 [| a2 [| b2 [| a3 [| b3 [| c s]]]]]]];
    try discriminate El.
  cbn in Ef. repeat (apply andb_true_iff in Ef; destruct Ef as [? Ef]).
  exists a1, b1, a2, b2, a3, b3. repeat split; assumption.
Qed.

Lemma hexToRgb_six (prefix : string) (a1 b1 a2 b2 a3 b3 : ascii) :
  prefix = EmptyString \/ prefix = String "#" EmptyString ->
  is_hex_digit a1 = true -> is_hex_digit b1 = true ->
  is_hex_digit a2 = true -> is_hex_digit b2 = true ->
  is_hex_digit a3 = true -> is_hex_digit b3 = true ->
  hexToRgb (Some (prefix +:+ String a1 (String b1 (String a2 (String b2
                     (String a3 (String b3 EmptyString)))))))
  = rgb (num_of_parse (parseInt (String a1 (String b1 EmptyString)) 16)
           / of_Z 255)%js
        (num_of_parse (parseInt (String a2 (String b2 EmptyString)) 16)
           / of_Z 255)%js
        (num_of_parse (parseInt (String a3 (String b3 EmptyString)) 16)
           / of_Z 255)%js.
Proof.
  intros Hp Ha1 Hb1 Ha2 Hb2 Ha3 Hb3.
  destruct (hex_digit_in_class a1 Ha1) as [Ca1 Na1].
  destruct (hex_digit_in_class b1 Hb1) as [Cb1 _].
  destruct (hex_digit_in_class a2 Ha2) as [Ca2 _].
  destruct (hex_digit_in_class b2 Hb2) as [Cb2 _].
  destruct (hex_digit_in_class a3 Ha3) as [Ca3 _].
  destruct (hex_digit_in_class b3 Hb3) as [Cb3 _].
  destruct Hp as [-> | ->].
  - change (EmptyString +:+ ?s) with s.
    unfold hexToRgb, exec_anchored, hex_color_regex, hex_digit_class.
    cbn [rmatch rep]. rewrite Na1, Ca1, Cb1, Ca2, Cb2, Ca3, Cb3.
    reflexivity.
  - change (String "#" EmptyString +:+ ?s) with (String "#" s).
    unfold hexToRgb, exec_anchored, hex_color_regex, hex_digit_class.
    cbn [rmatch rep]. 
    change (Ascii.eqb (canonicalize "#") (canonicalize "#")) with true.
    cbn iota. rewrite Ca1, Cb1, Ca2, Cb2, Ca3, Cb3.
    reflexivity.
Qed.

(** A well-formed colour is parsed: three bytes, each divided by 255. *)
Lemma hexToRgb_well_formed (s : string) :
  well_formed_hex s = true ->
  exists r g b : Z,
    0 <= r <= 255 /\ 0 <= g <= 255 /\ 0 <= b <= 255
    /\ hexToRgb (Some s)
       = rgb (of_Z r / of_Z 255)%js (of_Z g / of_Z 255)%js
             (of_Z b / of_Z 255)%js.
Proof.
  intros Hw.
  assert (Hs : exists prefix a1 b1 a2 b2 a3 b3,
             (prefix = EmptyString \/ prefix = String "#" EmptyString)
             /\ s = prefix +:+ String a1 (String b1 (String a2 (String b2
                      (String a3 (String b3 EmptyString)))))
             /\ is_hex_digit a1 = true /\ is_hex_digit b1 = true
             /\ is_hex_digit a2 = true /\ is_hex_digit b2 = true
             /\ is_hex_digit a3 = true /\ is_hex_digit b3 = true).
  { unfold well_formed_hex in Hw.
    destruct s as [| c d]; [discriminate Hw |].
    destruct (ascii_dec c "#") as [-> | Hc].
    - apply six_hex_digits_inv in Hw.
      destruct Hw as (a1 & b1 & a2 & b2 & a3 & b3 & -> & Hd).
      exists (String "#" EmptyString), a1, b1, a2, b2, a3, b3.
      split; [right; reflexivity | split; [reflexivity | exact Hd]].
    - assert (Hw' : six_hex_digits (String c d) = true).
      { destruct c as [[] [] [] [] [] [] [] []];
          first [exact Hw | exfalso; apply Hc; reflexivity]. }
      apply six_hex_digits_inv in Hw'.
      destruct Hw' as (a1 & b1 & a2 & b2 & a3 & b3 & E & Hd).
      exists EmptyString, a1, b1, a2, b2, a3, b3.
      split; [left; reflexivity | split; [exact E | exact Hd]]. }
  destruct Hs as (prefix & a1 & b1 & a2 & b2 & a3 & b3 & Hp & ->
                  & Ha1 & Hb1 & Ha2 & Hb2 & Ha3 & Hb3).
  rewrite (hexToRgb_six prefix a1 b1 a2 b2 a3 b3 Hp) by assumption.
  destruct (parseInt_hex_pair a1 b1 Ha1 Hb1) as (r & Hr & ->).
  destruct (parseInt_hex_pair a2 b2 Ha2 Hb2) as (g & Hg & ->).
  destruct (parseInt_hex_pair a3 b3 Ha3 Hb3) as (b & Hb & ->).
  exists r, g, b. repeat split; try lia.
Qed.

End ColourParsed.

(** ** Page ranges *)

Section PageRange.

Lemma split_nonempty (sep : ascii) (s : string) : split sep s <> [].
Proof.
  destruct s as [| c r]; cbn; [discriminate |].
  destruct (Ascii.eqb c sep); [discriminate |].
  destruct (split sep r); discriminate.
Qed.

(** A string that includes the separator splits into at least two pieces. *)
Lemma split_includes (sep : ascii) (s : string) :
  includes sep s = true -> exists a b rest, split sep s = a :: b :: rest.
Proof.
  induction s as [| c r IH]; cbn; [discriminate |].
  destruct (Ascii.eqb c sep).
  - intros _. destruct (split sep r) as [| h t] eqn:E.
    + exfalso. exact (split_nonempty sep r E).
    + exists EmptyString, h, t. reflexivity.
  - intros Hi. destruct (IH Hi) as (a & b & rest & ->).
    exists (String c a), b, rest. reflexivity.
Qed.

Lemma elem_of_set_add (p i : Z) (pages : list Z) :
  p ∈ set_add i pages <-> p ∈ pages \/ p = i.
Proof.
  unfold set_add. destruct (decide (i ∈ pages)) as [Hi | Hi].
  - split; [auto | intros [Hp | ->]; assumption].
  - rewrite elem_of_app, list_elem_of_singleton. reflexivity.
Qed.

Lemma NoDup_set_add (i : Z) (pages : list Z) :
  NoDup pages -> NoDup (set_add i pages).
Proof.
  intros Hn. unfold set_add. destruct (decide (i ∈ pages)) as [Hi | Hi];
    [exact Hn |].
  apply NoDup_app. split; [exact Hn | split; [| apply NoDup_singleton]].
  intros x Hx Hxi. apply list_elem_of_singleton in Hxi. subst x. auto.
Qed.

Lemma add_range_spec (start hi : Z) (pages : list Z) :
  (NoDup pages -> NoDup (add_range start hi pages))
  /\ forall p, p ∈ add_range start hi pages
               <-> p ∈ pages \/ (start <= p <= hi /\ 0 < p).
Proof.
  unfold add_range.
  assert (G : forall xs pages,
    (NoDup pages ->
     NoDup (foldl (fun pages i => if 0 <? i then set_add i pages else pages)
              pages xs))
    /\ forall p,
         p ∈ foldl (fun pages i => if 0 <? i then set_add i pages else pages)
               pages xs
         <-> p ∈ pages \/ (p ∈ xs /\ 0 < p)).
  { clear. induction xs as [| x xs IH]; intros pages; cbn.
    - split; [auto |]. intros p. rewrite elem_of_nil. tauto.
    - destruct (IH (if 0 <? x then set_add x pages else pages)) as [IHn IHp].
      split.
      + intros Hn. apply IHn. destruct (0 <? x); [apply NoDup_set_add |];
          exact Hn.
      + intros p. rewrite IHp, elem_of_cons.
        destruct (0 <? x) eqn:Ex.
        * rewrite elem_of_set_add. apply Z.ltb_lt in Ex.
          split; [intros [[Hp | ->] | [Hp H0]] | intros [Hp | [[-> | Hp] H0]]];
            auto.
        * apply Z.ltb_ge in Ex.
          split; [intros [Hp | [Hp H0]] | intros [Hp | [[-> | Hp] H0]]];
            auto; lia. }
  destruct (G (seqZ start (hi - start + 1)) pages) as [Gn Gp].
  split; [exact Gn |]. intros p. rewrite Gp, elem_of_seqZ.
  split; (intros [Hp | [Hr H0]]; [left; exact Hp | right; split; [lia | exact H0]]).
Qed.

(** The loop body never raises, keeps the set duplicate-free and adds
    exactly the pages the part stands for. *)
Lemma add_part_spec (maxPages : Z) (pages : list Z) (part : string) :
  exists pages',
    add_part maxPages pages part = Ok pages'
    /\ (NoDup pages -> NoDup pages')
    /\ forall p, p ∈ pages' <-> p ∈ pages \/ in_part maxPages part p.
Proof.
  unfold add_part, in_part.
  destruct (includes "-" (trim part)) eqn:Ei.
  - destruct (split_includes _ _ Ei) as (a & b & rest & Es). rewrite Es. cbn.
    destruct (parseInt (trim a) 0) as [start |] eqn:Ea;
      [destruct (parseInt (trim b) 0) as [end_ |] eqn:Eb |].
    + destruct (start <=? end_) eqn:Ele.
      * apply Z.leb_le in Ele.
        destruct (add_range_spec start (Z.min end_ maxPages) pages) as [Hn Hp].
        eexists. split; [reflexivity |]. split; [exact Hn |].
        intros p. rewrite Hp. split.
        -- intros [Hin | [Hr H0]]; [left; exact Hin |]. right.
           exists a, b, start, end_. repeat split; auto; lia.
        -- intros [Hin | (a' & b' & s' & e' & Ha & Hb & Hs & He & Hr & Hm)];
             [left; exact Hin |]. right.
           injection Ha as <-. injection Hb as <-.
           rewrite Ea in Hs. rewrite Eb in He.
           injection Hs as <-. injection He as <-. lia.
      * apply Z.leb_gt in Ele.
        eexists. split; [reflexivity |]. split; [auto |].
        intros p. split; [auto |].
        intros [Hin | (a' & b' & s' & e' & Ha & Hb & Hs & He & Hr & Hm)];
          [exact Hin |].
        injection Ha as <-. injection Hb as <-.
        rewrite Ea in Hs. rewrite Eb in He.
        injection Hs as <-. injection He as <-. lia.
    + eexists. split; [reflexivity |]. split; [auto |].
      intros p. split; [auto |].
      intros [Hin | (a' & b' & s' & e' & Ha & Hb & Hs & He & Hr & Hm)];
        [exact Hin |].
      injection Hb as <-. rewrite Eb in He. discriminate He.
    + eexists. split; [reflexivity |]. split; [auto |].
      intros p. split; [auto |].
      intros [Hin | (a' & b' & s' & e' & Ha & Hb & Hs & He & Hr & Hm)];
        [exact Hin |].
      injection Ha as <-. rewrite Ea in Hs. discriminate Hs.
  - destruct (parseInt (trim part) 0) as [pageNum |] eqn:Ep.
    + destruct ((0 <? pageNum) && (pageNum <=? maxPages)) eqn:Er.
      * apply andb_true_iff in Er. destruct Er as [E0 Em].
        apply Z.ltb_lt in E0. apply Z.leb_le in Em.
        eexists. split; [reflexivity |]. split; [apply NoDup_set_add |].
        intros p. rewrite elem_of_set_add. split.
        -- intros [Hin | ->]; [left; exact Hin | right].
           split; [reflexivity | lia].
        -- intros [Hin | [Hp Hm]]; [left; exact Hin | right].
           injection Hp as <-. reflexivity.
      * eexists. split; [reflexivity |]. split; [auto |].
        intros p. split; [auto |]. intros [Hin | [Hp Hm]]; [exact Hin |].
        injection Hp as <-.
        apply andb_false_iff in Er. destruct Er as [Er | Er];
          [apply Z.ltb_ge in Er | apply Z.leb_gt in Er]; lia.
    + eexists. split; [reflexivity |]. split; [auto |].
      intros p. split; [auto |]. intros [Hin | [Hp Hm]]; [exact Hin |].
      discriminate Hp.
Qed.

Lemma for_of_add_part (maxPages : Z) (parts : list string) (pages : list Z) :
  exists pages',
    for_of (add_part maxPages) pages parts = Ok pages'
    /\ (NoDup pages -> NoDup pages')
    /\ forall p, p ∈ pages'
                 <-> p ∈ pages
                     \/ exists part, part ∈ parts /\ in_part maxPages part p.
Proof.
  revert pages. induction parts as [| part parts IH]; intros pages; cbn.
  - exists pages. split; [reflexivity |]. split; [auto |].
    intros p. split; [auto |]. intros [Hin | (part & Hpart & _)];
      [exact Hin |]. apply elem_of_nil in Hpart. contradiction.
  - destruct (add_part_spec maxPages pages part) as (pages1 & -> & Hn1 & Hp1).
    cbn. destruct (IH pages1) as (pages' & E & Hn & Hp).
    exists pages'. split; [exact E |]. split; [auto |].
    intros p. rewrite Hp, Hp1. split.
    + intros [[Hin | Hpart] | (part' & Hin' & Hpart')].
      * left; exact Hin.
      * right. exists part. split; [apply elem_of_cons; left; reflexivity |].
        exact Hpart.
      * right. exists part'. split; [apply elem_of_cons; right |]; assumption.
    + intros [Hin | (part' & Hin' & Hpart')]; [left; left; exact Hin |].
      apply elem_of_cons in Hin'. destruct Hin' as [-> | Hin'].
      * left; right; exact Hpart'.
      * right. exists part'. split; assumption.
Qed.

Lemma StronglySorted_le_lt (l : list Z) :
  NoDup l -> StronglySorted Z.le l -> StronglySorted Z.lt l.
Proof.
  induction l as [| a l IH]; intros Hn Hs; [constructor |].
  apply NoDup_cons in Hn. destruct Hn as [Ha Hn].
  apply StronglySorted_inv in Hs. destruct Hs as [Hs Hall].
  constructor; [apply IH; assumption |].
  apply Forall_forall. intros x Hx.
  rewrite Forall_forall in Hall. specialize (Hall x Hx).
  assert (a <> x) by (intros ->; apply Ha; exact Hx). lia.
Qed.

(** C10.  [parsePageRange] never raises; its result is strictly
    increasing, without duplicates, within 1..maxPages, and holds exactly
    the pages the comma-separated parts stand for: a part that is not a
    positive in-range number, and a dash range with a non-numeric endpoint
    or with its start above its end, stands for no page. *)
Theorem parsePageRange_spec (range : string) (maxPages : Z) :
  exists pages,
    parsePageRange range maxPages = Ok pages
    /\ StronglySorted Z.lt pages
    /\ NoDup pages
    /\ Forall (fun p => 1 <= p <= maxPages) pages
    /\ forall p, p ∈ pages
                 <-> exists part,
                       part ∈ split "," range /\ in_part maxPages part p.
Proof.
  unfold parsePageRange.
  destruct (for_of_add_part maxPages (split "," range) [])
    as (pages & -> & Hn & Hp).
  specialize (Hn (NoDup_nil_2 (A:=Z))). cbn.
  exists (merge_sort Z.le pages). split; [reflexivity |].
  pose proof (merge_sort_Permutation Z.le pages) as Hperm.
  assert (Hn' : NoDup (merge_sort Z.le pages)) by (rewrite Hperm; exact Hn).
  assert (Hmem : forall p, p ∈ merge_sort Z.le pages
                   <-> exists part,
                         part ∈ split "," range /\ in_part maxPages part p).
  { intros p. rewrite Hperm, Hp. rewrite elem_of_nil. tauto. }
  split; [| split; [exact Hn' | split; [| exact Hmem]]].
  - apply StronglySorted_le_lt; [exact Hn' |].
    apply (StronglySorted_merge_sort Z.le).
  - apply Forall_forall. intros p Hin. apply Hmem in Hin.
    destruct Hin as (part & _ & Hpart). unfold in_part in Hpart.
    destruct (includes "-" (trim part)).
    + destruct Hpart as (a & b & s & e & _ & _ & _ & _ & _ & Hm). exact Hm.
    + destruct Hpart as [_ Hm]. exact Hm.
Qed.

End PageRange.

(** ** Sample runs *)

Example parsePageRange_sample :
  parsePageRange "1-3, 5,7-6, x, 2-4, 0x10, 12abc, -3, 3-, 9-99"%string 12
  = Ok [1; 2; 3; 4; 5; 9; 10; 11; 12].
Proof. reflexivity. Qed.

Example hexToRgb_sample :
  hexToRgb (num:=float) (Some "#FF0000"%string) = rgb 1%float 0%float 0%float
  /\ hexToRgb (num:=float) (Some "00ff00"%string) = rgb 0%float 1%float 0%float
  /\ hexToRgb (num:=float) (Some "#FF000"%string) = rgb 1%float 1%float 0%float
  /\ hexToRgb (num:=float) (Some "yellow"%string) = rgb 1%float 1%float 0%float
  /\ hexToRgb (num:=float) None = rgb 1%float 1%float 0%float.
Proof. repeat split. Qed.

(** A stroke drawn on a canvas of height 0, and an annotation of another
    type, do not stop the loop; the stroke's y coordinates are not finite. *)
Example zero_height_stroke :
  annotate (num:=float) scenario_pages
    [ {| page := 1%float;
         canvasSize := Some {| width := 300%float; height := 0%float |};
         color := None; type := "draw"%string; rect := None;
         paths := Some [(0, 0); (10, 10); (20, 5)]%float;
         strokeWidth := Some 0%float |};
      {| page := 0%float; canvasSize := Some {| width := 1%float; height := 1%float |};
         color := None; type := "note"%string; rect := None; paths := None;
         strokeWidth := None |} ]
  = SendPdf
      [ drawSvgPath 1
          {| moveTo := Some (0%float, PrimFloat.nan);
             lineTo := [(20%float, neg_infinity); (40%float, neg_infinity)] |}
          (rgb 1%float 1%float 0%float) 3%float Round ].
Proof. vm_compute. reflexivity. Qed.

(** The corners of the 300x400 canvas on a 600x800 page, in binary64: the
    canvas origin goes to (0, 800) and the opposite corner to (600, 0). *)
Example convertCoords_corners_binary64 :
  convertCoords 300%float 400%float 600%float 800%float 0%float 0%float
    = (0%float, 800%float)
  /\ convertCoords 300%float 400%float 600%float 800%float 300%float 400%float
     = (600%float, 0%float).
Proof. split; vm_compute; reflexivity. Qed.

(* ================================================================== *)
(** * Further properties *)

(** ** Page ranges, continued *)

Section PageRangeMore.

(** The content of the page-range theorem, for reuse. *)
Lemma parsePageRange_char (range : string) (maxPages : Z) :
  exists pages,
    parsePageRange range maxPages = Ok pages
    /\ StronglySorted Z.lt pages
    /\ forall p, p ∈ pages
                 <-> exists part,
                       part ∈ split "," range /\ in_part maxPages part p.
Proof.
  unfold parsePageRange.
  destruct (for_of_add_part maxPages (split "," range) [])
    as (pages & -> & Hn & Hp).
  specialize (Hn (NoDup_nil_2 (A:=Z))). cbn.
  exists (merge_sort Z.le pages). split; [reflexivity |].
  pose proof (merge_sort_Permutation Z.le pages) as Hperm.
  split.
  - apply StronglySorted_le_lt; [rewrite Hperm; exact Hn |].
    apply (StronglySorted_merge_sort Z.le).
  - intros p. rewrite Hperm, Hp. rewrite elem_of_nil. tauto.
Qed.

(** Two strictly increasing lists with the same elements are equal. *)
Lemma sorted_lt_ext (l1 l2 : list Z) :
  StronglySorted Z.lt l1 -> StronglySorted Z.lt l2 ->
  (forall p, p ∈ l1 <-> p ∈ l2) -> l1 = l2.
Proof.
  revert l2. induction l1 as [| a l1 IH]; intros l2 H1 H2 Hm.
  - destruct l2 as [| b l2]; [reflexivity |].
    exfalso. apply (elem_of_nil b). apply Hm. left.
  - apply StronglySorted_inv in H1. destruct H1 as [H1 Ha].
    rewrite Forall_forall in Ha.
    destruct l2 as [| b l2].
    { exfalso. apply (elem_of_nil a). apply Hm. left. }
    apply StronglySorted_inv in H2. destruct H2 as [H2 Hb].
    rewrite Forall_forall in Hb.
    assert (a = b).
    { assert (Hab : a ∈ b :: l2) by (apply Hm; left).
      assert (Hba : b ∈ a :: l1) by (apply Hm; left).
      apply elem_of_cons in Hab. apply elem_of_cons in Hba.
      destruct Hab as [-> | Hab]; [reflexivity |].
      destruct Hba as [-> | Hba]; [reflexivity |].
      specialize (Ha b Hba). specialize (Hb a Hab). lia. }
    subst b. f_equal. apply IH; [assumption | assumption |].
    intros p. split; intros Hp.
    + assert (Hp' : p ∈ a :: l2) by (apply Hm; right; exact Hp).
      apply elem_of_cons in Hp'. destruct Hp' as [-> | Hp']; [| exact Hp'].
      specialize (Ha a Hp). lia.
    + assert (Hp' : p ∈ a :: l1) by (apply Hm; right; exact Hp).
      apply elem_of_cons in Hp'. destruct Hp' as [-> | Hp']; [| exact Hp'].
      specialize (Hb a Hp). lia.
Qed.

(** The result is determined by the pages the parts stand for. *)
Lemma parsePageRange_ext (r1 r2 : string) (m1 m2 : Z) :
  (forall p, (exists part, part ∈ split "," r1 /\ in_part m1 part p)
             <-> (exists part, part ∈ split "," r2 /\ in_part m2 part p)) ->
  parsePageRange r1 m1 = parsePageRange r2 m2.
Proof.
  intros Hm.
  destruct (parsePageRange_char r1 m1) as (l1 & -> & S1 & M1).
  destruct (parsePageRange_char r2 m2) as (l2 & -> & S2 & M2).
  f_equal. apply sorted_lt_ext; [assumption | assumption |].
  intros p. rewrite M1, M2. apply Hm.
Qed.

Lemma split_app (sep : ascii) (a b : string) :
  split sep (a +:+ String sep b) = split sep a ++ split sep b.
Proof.
  induction a as [| c a IH].
  - change (split sep (String sep b) = [EmptyString] ++ split sep b).
    cbn. rewrite Ascii.eqb_refl. reflexivity.
  - change (split sep (String c (a +:+ String sep b))
            = split sep (String c a) ++ split sep b).
    cbn. destruct (Ascii.eqb c sep); [rewrite IH; reflexivity |].
    rewrite IH. destruct (split sep a) as [| h t] eqn:E;
      [exfalso; exact (split_nonempty sep a E) | reflexivity].
Qed.

(** X1.  The order of the comma-separated parts does not matter, and
    neither does a repeated part. *)
Theorem parsePageRange_parts_order (a b : string) (maxPages : Z) :
  parsePageRange (a +:+ String "," b) maxPages
    = parsePageRange (b +:+ String "," a) maxPages
  /\ parsePageRange (a +:+ String "," a) maxPages
     = parsePageRange a maxPages.
Proof.
  split; apply parsePageRange_ext; intros p; rewrite !split_app;
    split; intros (part & Hin & Hp); exists part; (split; [| exact Hp]);
    rewrite ?elem_of_app in *; tauto.
Qed.

Lemma in_part_le (m m' : Z) (part : string) (p : Z) :
  m <= m' -> in_part m part p <-> in_part m' part p /\ p <= m.
Proof.
  intros Hm. unfold in_part. destruct (includes "-" (trim part)).
  - split.
    + intros (a & b & s & e & Ha & Hb & Hs & He & Hr & Hp).
      split; [| lia]. exists a, b, s, e. repeat split; auto; lia.
    + intros [(a & b & s & e & Ha & Hb & Hs & He & Hr & Hp) Hle].
      exists a, b, s, e. repeat split; auto; lia.
  - split; [intros [Hp Hr] | intros [[Hp Hr] Hle]]; repeat split; auto; lia.
Qed.

Lemma StronglySorted_filter (P : Z -> Prop) `{forall x, Decision (P x)}
    (l : list Z) :
  StronglySorted Z.lt l -> StronglySorted Z.lt (filter P l).
Proof.
  induction 1 as [| a l Hs IH Ha]; [constructor |].
  rewrite filter_cons. destruct (decide (P a)); [| exact IH].
  constructor; [exact IH |].
  rewrite Forall_forall in *. intros x Hx.
  apply list_elem_of_filter in Hx. apply Ha, Hx.
Qed.

(** X2.  Lowering the page count only truncates the result: the pages for
    [m] are the pages for a larger [m'] that do not exceed [m]. *)
Theorem parsePageRange_truncates (range : string) (m m' : Z) :
  m <= m' ->
  exists pages',
    parsePageRange range m' = Ok pages'
    /\ parsePageRange range m = Ok (filter (fun p => p <= m) pages').
Proof.
  intros Hm.
  destruct (parsePageRange_char range m') as (l' & E' & S' & M').
  destruct (parsePageRange_char range m) as (l & E & S & M).
  exists l'. split; [exact E' |]. rewrite E. f_equal.
  apply sorted_lt_ext; [exact S | apply StronglySorted_filter; exact S' |].
  intros p. rewrite list_elem_of_filter, M, M'. split.
  - intros (part & Hin & Hp). apply (in_part_le m m') in Hp; [| exact Hm].
    destruct Hp as [Hp Hle]. split; [exact Hle |]. exists part. auto.
  - intros [Hle (part & Hin & Hp)]. exists part. split; [exact Hin |].
    apply (in_part_le m m'); auto.
Qed.

Lemma parsePageRange_truncates_witness :
  exists pages',
    parsePageRange "1-3,8,5-6"%string 10 = Ok pages'
    /\ parsePageRange "1-3,8,5-6"%string 5
       = Ok (filter (fun p => p <= 5) pages').
Proof. apply parsePageRange_truncates. lia. Defined.

Lemma split_no_sep (sep : ascii) (s : string) :
  includes sep s = false -> split sep s = [s].
Proof.
  induction s as [| c s IH]; cbn; [reflexivity |].
  destruct (Ascii.eqb c sep); [discriminate |].
  intros Hi. rewrite (IH Hi). reflexivity.
Qed.

Lemma sorted_seqZ (lo len : Z) : StronglySorted Z.lt (seqZ lo len).
Proof.
  destruct (Z.le_gt_cases len 0) as [Hl | Hl].
  - replace (seqZ lo len) with (@nil Z); [constructor |].
    unfold seqZ. replace (Z.to_nat len) with 0%nat by lia. reflexivity.
  - replace len with (Z.of_nat (Z.to_nat len)) by lia.
    generalize (Z.to_nat len) as n. clear. intros n. revert lo.
    induction n as [| n IH]; intros lo; [constructor |].
    rewrite Nat2Z.inj_succ, seqZ_cons by lia.
    replace (Z.pred (Z.succ (Z.of_nat n))) with (Z.of_nat n) by lia.
    constructor; [apply IH |].
    apply Forall_forall. intros x Hx. apply elem_of_seqZ in Hx. lia.
Qed.

(** X3.  A range without a comma that is one dash range stands for the
    consecutive pages from [max(start, 1)] to [min(end, maxPages)]: none
    when that interval is empty, as when the start exceeds the end. *)
Theorem parsePageRange_one_range (range : string) (maxPages : Z)
    (a b : string) (s e : Z) :
  includes "," range = false ->
  includes "-" (trim range) = true ->
  split "-" (trim range) !! 0%nat = Some a ->
  split "-" (trim range) !! 1%nat = Some b ->
  parseInt (trim a) 0 = Some s -> parseInt (trim b) 0 = Some e ->
  parsePageRange range maxPages
  = Ok (seqZ (Z.max s 1) (Z.min e maxPages - Z.max s 1 + 1)).
Proof.
  intros Hc Hi Ha Hb Hps Hpe. pose proof (split_no_sep _ _ Hc) as Hs.
  destruct (parsePageRange_char range maxPages) as (l & -> & S & M).
  f_equal. apply sorted_lt_ext; [exact S | apply sorted_seqZ |].
  intros p. rewrite M, Hs, elem_of_seqZ. split.
  - intros (part & Hin & Hp). apply list_elem_of_singleton in Hin. subst part.
    unfold in_part in Hp. rewrite Hi in Hp.
    destruct Hp as (a' & b' & s' & e' & Ha' & Hb' & Hs' & He' & Hr & Hm).
    rewrite Ha in Ha'. rewrite Hb in Hb'.
    injection Ha' as <-. injection Hb' as <-.
    rewrite Hps in Hs'. rewrite Hpe in He'.
    injection Hs' as <-. injection He' as <-. lia.
  - intros Hp. exists range. split; [apply list_elem_of_singleton; reflexivity |].
    unfold in_part. rewrite Hi. exists a, b, s, e. repeat split; auto; lia.
Qed.

Lemma parsePageRange_one_range_witness :
  parsePageRange " 0-4 "%string 3
  = Ok (seqZ (Z.max 0 1) (Z.min 4 3 - Z.max 0 1 + 1)).
Proof.
  exact (parsePageRange_one_range " 0-4 "%string 3 "0"%string "4"%string 0 4
           eq_refl eq_refl eq_refl eq_refl eq_refl eq_refl).
Defined.

(** X4.  A range without comma or dash that parses to a number stands for
    that page when it lies in [1..maxPages], and for nothing otherwise. *)
Theorem parsePageRange_one_number (range : string) (maxPages n : Z) :
  includes "," range = false ->
  includes "-" (trim range) = false ->
  parseInt (trim range) 0 = Some n ->
  parsePageRange range maxPages
  = Ok (if (0 <? n) && (n <=? maxPages) then [n] else []).
Proof.
  intros Hc Hi Hp. pose proof (split_no_sep _ _ Hc) as Hs.
  destruct (parsePageRange_char range maxPages) as (l & -> & S & M).
  f_equal. apply sorted_lt_ext; [exact S | |].
  - destruct ((0 <? n) && (n <=? maxPages)); repeat constructor.
  - intros p. rewrite M, Hs. split.
    + intros (part & Hin & Hq). apply list_elem_of_singleton in Hin.
      subst part. unfold in_part in Hq. rewrite Hi in Hq.
      destruct Hq as [Hq Hr]. rewrite Hp in Hq. injection Hq as <-.
      replace ((0 <? n) && (n <=? maxPages)) with true
        by (symmetry; apply andb_true_iff; split;
            [apply Z.ltb_lt | apply Z.leb_le]; lia).
      apply list_elem_of_singleton. reflexivity.
    + intros Hin. destruct ((0 <? n) && (n <=? maxPages)) eqn:En;
        [| apply elem_of_nil in Hin; contradiction].
      apply list_elem_of_singleton in Hin. subst p.
      apply andb_true_iff in En. destruct En as [E0 E1].
      apply Z.ltb_lt in E0. apply Z.leb_le in E1.
      exists range. split; [apply list_elem_of_singleton; reflexivity |].
      unfold in_part. rewrite Hi. split; [exact Hp | lia].
Qed.

Lemma parsePageRange_one_number_witness :
  parsePageRange " 7th "%string 9
  = Ok (if (0 <? 7) && (7 <=? 9) then [7] else []).
Proof.
  exact (parsePageRange_one_number " 7th "%string 9 7 eq_refl eq_refl eq_refl).
Defined.

Lemma seqZ_nil (lo len : Z) : len <= 0 -> seqZ lo len = [].
Proof.
  intros Hl. unfold seqZ. replace (Z.to_nat len) with 0%nat by lia. reflexivity.
Qed.

Lemma add_part_v0_eq (maxPages : Z) (pages : list Z) (part : string) :
  add_part maxPages pages part = Ok (add_part_v0 maxPages pages part).
Proof.
  unfold add_part, add_part_v0.
  destruct (includes "-" (trim part)) eqn:Ei; [| destruct (parseInt _ _);
    [destruct (_ && _) |]; reflexivity].
  destruct (split_includes _ _ Ei) as (a & b & rest & ->). cbn.
  destruct (parseInt (trim a) 0) as [start |]; [| reflexivity].
  destruct (parseInt (trim b) 0) as [end_ |]; [| reflexivity].
  destruct (start <=? end_) eqn:El; [reflexivity |].
  apply Z.leb_gt in El. f_equal. unfold add_range.
  rewrite seqZ_nil by lia. reflexivity.
Qed.

Lemma for_of_add_part_v0 (maxPages : Z) (parts : list string) (pages : list Z) :
  for_of (add_part maxPages) pages parts
  = Ok (foldl (add_part_v0 maxPages) pages parts).
Proof.
  revert pages. induction parts as [| part parts IH]; intros pages; cbn;
    [reflexivity |].
  rewrite add_part_v0_eq. cbn. apply IH.
Qed.

(** X5.  The two versions of [parsePageRange] in the repository agree: the
    later one, with its [Set], its [isNaN] tests and its test of
    [start <= end], returns what the earlier one returns, on every range
    and page count. *)
Theorem parsePageRange_versions_agree (range : string) (maxPages : Z) :
  parsePageRange range maxPages = Ok (parsePageRange_v0 range maxPages).
Proof.
  unfold parsePageRange, parsePageRange_v0.
  rewrite for_of_add_part_v0. reflexivity.
Qed.

End PageRangeMore.

(** ** The split route *)

Section SplitRoute.

Lemma sorted_pred (l : list Z) :
  StronglySorted Z.lt l -> StronglySorted Z.lt (map (fun p => p - 1) l).
Proof.
  induction 1 as [| a l Hs IH Ha]; cbn; constructor; [exact IH |].
  rewrite Forall_forall in *. intros x Hx.
  apply (list_elem_of_fmap (fun p => p - 1)) in Hx.
  destruct Hx as (y & -> & Hy). specialize (Ha y Hy). lia.
Qed.

(** X6.  Whenever the split route sends a document, a file and a non-empty
    range were given, the document is not encrypted, and the indices given
    to [copyPages] are at least one, strictly increasing (so distinct), and
    all within the document: at least 0 and below its page count. *)
Theorem split_route_indices (file range : option string)
    (load : string + PdfInfo) (filename : string) (indices : list Z) :
  split_route file range load = Send filename indices ->
  exists path r pdfDoc,
    file = Some path /\ range = Some r /\ r <> EmptyString
    /\ load = inr pdfDoc /\ isEncrypted pdfDoc = false
    /\ filename = "split_pages_" +:+ r +:+ ".pdf"
    /\ indices <> []
    /\ StronglySorted Z.lt indices
    /\ Forall (fun i => 0 <= i < Z.of_nat (pageCount pdfDoc)) indices.
Proof.
  unfold split_route. intros E.
  destruct file as [path |]; [| discriminate E].
  destruct range as [[| c r] |]; try discriminate E.
  destruct load as [msg | pdfDoc]; [discriminate E |].
  destruct (isEncrypted pdfDoc) eqn:Enc; [discriminate E |].
  destruct (parsePageRange_char (String c r) (Z.of_nat (pageCount pdfDoc)))
    as (pages & Ep & S & M).
  rewrite Ep in E.
  destruct pages as [| p0 pages]; [discriminate E |]. cbn [length Nat.eqb] in E.
  injection E as <- <-.
  exists path, (String c r), pdfDoc.
  repeat split; try reflexivity; try assumption; try discriminate.
  - apply (sorted_pred (p0 :: pages)). exact S.
  - apply Forall_forall. intros x Hx.
    change (x ∈ map (fun p => p - 1) (p0 :: pages)) in Hx.
    apply (list_elem_of_fmap (fun p => p - 1)) in Hx.
    destruct Hx as (y & -> & Hy).
    apply M in Hy. destruct Hy as (part & _ & Hy). unfold in_part in Hy.
    destruct (includes "-" (trim part)).
    + destruct Hy as (a & b & s & e & _ & _ & _ & _ & _ & Hm). lia.
    + destruct Hy as [_ Hm]. lia.
Qed.

Lemma split_route_indices_witness :
  exists path r pdfDoc,
    Some "/uploads/1-a.pdf"%string = Some path
    /\ Some "2-3,9"%string = Some r /\ r <> EmptyString
    /\ (inr {| isEncrypted := false; pageCount := 5 |} : string + PdfInfo)
       = inr pdfDoc
    /\ isEncrypted pdfDoc = false
    /\ "split_pages_2-3,9.pdf"%string = "split_pages_" +:+ r +:+ ".pdf"
    /\ [1; 2] <> []
    /\ StronglySorted Z.lt [1; 2]
    /\ Forall (fun i => 0 <= i < Z.of_nat (pageCount pdfDoc)) [1; 2].
Proof.
  exact (split_route_indices (Some "/uploads/1-a.pdf"%string)
           (Some "2-3,9"%string)
           (inr {| isEncrypted := false; pageCount := 5 |})
           "split_pages_2-3,9.pdf"%string [1; 2] eq_refl).
Defined.

End SplitRoute.

(** ** Colours, continued *)

Section ColourMore.
Context {num : Type} `{JsNumber num}.

Lemma hexToRgb_malformed (s : string) :
  well_formed_hex s = false -> hexToRgb (Some s) = yellow.
Proof.
  intros Hbad. destruct s as [| a s]; [reflexivity |].
  unfold hexToRgb.
  destruct (exec_anchored hex_color_regex 3 (String a s)) as [caps |] eqn:E;
    [| reflexivity].
  apply exec_anchored_sound, matches_hex_color in E. congruence.
Qed.

Lemma parseInt_hex_pair_value (a b : ascii) :
  is_hex_digit a = true -> is_hex_digit b = true ->
  parseInt (String a (String b EmptyString)) 16 = Some (hex_pair a b)
  /\ 0 <= hex_pair a b <= 255.
Proof.
  intros Ha Hb.
  destruct (hex_digit_plain a Ha) as (Wa & Ma & Pa & _ & _ & da & Da & Ra).
  destruct (hex_digit_plain b Hb) as (_ & _ & _ & Xb & XXb & db & Db & Rb).
  unfold hex_pair. rewrite Da, Db. cbn [default]. unfold id. split; [| lia].
  unfold parseInt. cbn [trimStart]. rewrite Wa.
  unfold strip_sign. rewrite Ma, Pa.
  cbn [Z.eqb negb andb orb]. unfold strip_hex_prefix. rewrite Xb, XXb.
  rewrite andb_false_r.
  change ((16 <? 2) || (36 <? 16)) with false.
  change (16 =? 16)%positive with true. cbn iota beta.
  cbn [parse_digits]. rewrite Da, Db.
  destruct Ra as [Ra0 Ra1]. destruct Rb as [Rb0 Rb1].
  apply Z.ltb_lt in Ra1, Rb1. rewrite Ra1. cbn [default]. rewrite Rb1.
  cbn [default]. unfold id. f_equal. lia.
Qed.

(** X7.  A colour of six hexadecimal digits, with or without a leading
    [#], is read as three bytes, each divided by 255: red from the first
    pair of digits, green from the second, blue from the third. *)
Theorem hexToRgb_six_digits (prefix : string) (a1 b1 a2 b2 a3 b3 : ascii) :
  prefix = EmptyString \/ prefix = String "#" EmptyString ->
  is_hex_digit a1 = true -> is_hex_digit b1 = true ->
  is_hex_digit a2 = true -> is_hex_digit b2 = true ->
  is_hex_digit a3 = true -> is_hex_digit b3 = true ->
  hexToRgb (Some (prefix +:+ String a1 (String b1 (String a2 (String b2
                     (String a3 (String b3 EmptyString)))))))
  = rgb (of_Z (hex_pair a1 b1) / of_Z 255)%js
        (of_Z (hex_pair a2 b2) / of_Z 255)%js
        (of_Z (hex_pair a3 b3) / of_Z 255)%js.
Proof.
  intros Hp Ha1 Hb1 Ha2 Hb2 Ha3 Hb3.
  rewrite (hexToRgb_six prefix a1 b1 a2 b2 a3 b3 Hp) by assumption.
  rewrite (proj1 (parseInt_hex_pair_value a1 b1 Ha1 Hb1)).
  rewrite (proj1 (parseInt_hex_pair_value a2 b2 Ha2 Hb2)).
  rewrite (proj1 (parseInt_hex_pair_value a3 b3 Ha3 Hb3)).
  reflexivity.
Qed.

End ColourMore.

Lemma hexToRgb_six_digits_witness :
  hexToRgb (num:=xq) (Some ("#" +:+ "1aFf00"))%string
  = rgb (of_Z (hex_pair "1" "a") / of_Z 255)%js
        (of_Z (hex_pair "F" "f") / of_Z 255)%js
        (of_Z (hex_pair "0" "0") / of_Z 255)%js.
Proof.
  apply (hexToRgb_six_digits "#"%string "1" "a" "F" "f" "0" "0")%char;
    first [right; reflexivity | reflexivity].
Defined.

Section ColourShape.

Lemma well_formed_hex_inv (s : string) :
  well_formed_hex s = true ->
  exists prefix a1 b1 a2 b2 a3 b3,
    (prefix = EmptyString \/ prefix = String "#" EmptyString)
    /\ s = prefix +:+ String a1 (String b1 (String a2 (String b2
             (String a3 (String b3 EmptyString)))))
    /\ is_hex_digit a1 = true /\ is_hex_digit b1 = true
    /\ is_hex_digit a2 = true /\ is_hex_digit b2 = true
    /\ is_hex_digit a3 = true /\ is_hex_digit b3 = true.
Proof.
  intros Hw. unfold well_formed_hex in Hw.
  destruct s as [| c d]; [discriminate Hw |].
  destruct (ascii_dec c "#") as [-> | Hc].
  - apply six_hex_digits_inv in Hw.
    destruct Hw as (a1 & b1 & a2 & b2 & a3 & b3 & -> & Hd).
    exists (String "#" EmptyString), a1, b1, a2, b2, a3, b3.
    split; [right; reflexivity | split; [reflexivity | exact Hd]].
  - assert (Hw' : six_hex_digits (String c d) = true).
    { destruct c as [[] [] [] [] [] [] [] []];
        first [exact Hw | exfalso; apply Hc; reflexivity]. }
    apply six_hex_digits_inv in Hw'.
    destruct Hw' as (a1 & b1 & a2 & b2 & a3 & b3 & E & Hd).
    exists EmptyString, a1, b1, a2, b2, a3, b3.
    split; [left; reflexivity | split; [exact E | exact Hd]].
Qed.

Local Open Scope Qc_scope.

Lemma byte_channel (v : Z) :
  (0 <= v <= 255)%Z ->
  (of_Z v / of_Z 255)%js = Num (Qz v / Qz 255)
  /\ 0 <= Qz v / Qz 255 <= 1.
Proof.
  intros Hv. split.
  - cbn. apply xq_div_finite. intros E. discriminate E.
  - apply Qc_ratio_unit.
    + apply (proj1 (Qz_lt 0 255)). lia.
    + split; [apply (proj1 (Qz_le 0 v)) | apply (proj1 (Qz_le v 255))]; lia.
Qed.

(** X8.  Whatever the colour field, absent, malformed or well formed, the
    three channels [hexToRgb] returns are finite numbers between 0 and 1,
    as pdf-lib's [rgb] requires. *)
Theorem hexToRgb_channels_in_unit (hex : option string) :
  exists r g b : Qc,
    hexToRgb (num:=xq) hex = rgb (Num r) (Num g) (Num b)
    /\ 0 <= r <= 1 /\ 0 <= g <= 1 /\ 0 <= b <= 1.
Proof.
  assert (Hy : exists r g b : Qc,
             yellow (num:=xq) = rgb (Num r) (Num g) (Num b)
             /\ 0 <= r <= 1 /\ 0 <= g <= 1 /\ 0 <= b <= 1).
  { exists (Qz 1), (Qz 1), (Qz 0). split; [reflexivity |].
    repeat split; first [apply (proj1 (Qz_le 0 _)) | apply (proj1 (Qz_le _ 1))];
      lia. }
  destruct hex as [s |]; [| exact Hy].
  destruct (well_formed_hex s) eqn:Hw.
  - apply well_formed_hex_inv in Hw.
    destruct Hw as (prefix & a1 & b1 & a2 & b2 & a3 & b3 & Hp & ->
                    & Ha1 & Hb1 & Ha2 & Hb2 & Ha3 & Hb3).
    rewrite (hexToRgb_six prefix a1 b1 a2 b2 a3 b3 Hp) by assumption.
    destruct (parseInt_hex_pair_value a1 b1 Ha1 Hb1) as [-> R1].
    destruct (parseInt_hex_pair_value a2 b2 Ha2 Hb2) as [-> R2].
    destruct (parseInt_hex_pair_value a3 b3 Ha3 Hb3) as [-> R3].
    cbn [num_of_parse].
    destruct (byte_channel _ R1) as [-> C1].
    destruct (byte_channel _ R2) as [-> C2].
    destruct (byte_channel _ R3) as [-> C3].
    eexists _, _, _. split; [reflexivity |]. auto.
  - rewrite (hexToRgb_malformed s Hw). exact Hy.
Qed.

End ColourShape.

Section ColourCase.
Context {num : Type} `{JsNumber num}.




Lemma well_formed_hex_cons (c : ascii) (d : string) :
  well_formed_hex (String c d)
  = if Ascii.eqb c "#" then six_hex_digits d else six_hex_digits (String c d).
Proof. destruct c as [[] [] [] [] [] [] [] []]; reflexivity. Qed.




(** X10.  The leading [#] is optional: a colour that does not start with
    [#] is read as the same colour with [#] in front. *)
Theorem hexToRgb_hash_optional (s : string) :
  (forall r, s <> String "#" r) ->
  hexToRgb (Some (String "#" s)) = hexToRgb (Some s).
Proof.
  intros Hs. destruct s as [| c d]; [reflexivity |].
  assert (Ew : well_formed_hex (String "#" (String c d))
               = well_formed_hex (String c d)).
  { rewrite (well_formed_hex_cons c d).
    destruct (Ascii.eqb c "#") eqn:Ec; [| reflexivity].
    apply Ascii.eqb_eq in Ec. subst c. exfalso. apply (Hs d). reflexivity. }
  destruct (well_formed_hex (String c d)) eqn:Hw.
  - assert (H6 : six_hex_digits (String c d) = true) by exact Ew.
    apply six_hex_digits_inv in H6.
    destruct H6 as (a1 & b1 & a2 & b2 & a3 & b3 & E & Ha1 & Hb1 & Ha2 & Hb2
                    & Ha3 & Hb3).
    rewrite E.
    rewrite (hexToRgb_six (String "#" EmptyString) a1 b1 a2 b2 a3 b3)
      by first [right; reflexivity | assumption].
    rewrite (hexToRgb_six EmptyString a1 b1 a2 b2 a3 b3)
      by first [left; reflexivity | assumption].
    reflexivity.
  - rewrite (hexToRgb_malformed _ Ew), (hexToRgb_malformed _ Hw). reflexivity.
Qed.

End ColourCase.

Lemma hexToRgb_hash_optional_witness :
  hexToRgb (num:=xq) (Some (String "#" "00ff7F")) = hexToRgb (Some "00ff7F"%string).
Proof.
  apply hexToRgb_hash_optional. intros r E. discriminate E.
Defined.

(** ** The coordinate mapper, continued *)

Section MapperMore.
Local Open Scope Qc_scope.

Lemma Qc_div_le_mono (a b c : Qc) : 0 < c -> a <= b -> a / c <= b / c.
Proof.
  intros Hc Hab. apply (Qcmult_lt_0_le_reg_r _ _ c Hc).
  replace (a / c * c) with a by (field; apply Qc_pos_neq0, Hc).
  replace (b / c * c) with b by (field; apply Qc_pos_neq0, Hc).
  exact Hab.
Qed.

(** X12.  On a positive canvas and a page of non-negative size the mapper
    keeps the horizontal order of two points and reverses their vertical
    order: further right on the canvas is not further left on the page,
    further down on the canvas is not further up on the page. *)
Theorem convertCoords_order (x1 y1 x2 y2 cw ch pw ph : Qc) :
  0 < cw -> 0 < ch -> 0 <= pw -> 0 <= ph ->
  x1 <= x2 -> y1 <= y2 ->
  exists pageX1 pageY1 pageX2 pageY2 : Qc,
    convertCoords (Num cw) (Num ch) (Num pw) (Num ph) (Num x1) (Num y1)
      = (Num pageX1, Num pageY1)
    /\ convertCoords (Num cw) (Num ch) (Num pw) (Num ph) (Num x2) (Num y2)
       = (Num pageX2, Num pageY2)
    /\ pageX1 <= pageX2 /\ pageY2 <= pageY1.
Proof.
  intros Hcw Hch Hpw Hph Hx Hy.
  exists (x1 / cw * pw), (ph - y1 / ch * ph),
         (x2 / cw * pw), (ph - y2 / ch * ph).
  split; [apply convertCoords_finite; apply Qc_pos_neq0; assumption |].
  split; [apply convertCoords_finite; apply Qc_pos_neq0; assumption |].
  split.
  - apply Qcmult_le_compat_r; [apply Qc_div_le_mono |]; assumption.
  - unfold Qcminus. apply Qcplus_le_compat; [apply Qcle_refl |].
    apply Qcopp_le_compat.
    apply Qcmult_le_compat_r; [apply Qc_div_le_mono |]; assumption.
Qed.

Lemma convertCoords_order_witness :
  exists pageX1 pageY1 pageX2 pageY2 : Qc,
    convertCoords (Num (Qz 300)) (Num (Qz 400)) (Num (Qz 600)) (Num (Qz 800))
      (Num (Qz 30)) (Num (Qz 40)) = (Num pageX1, Num pageY1)
    /\ convertCoords (Num (Qz 300)) (Num (Qz 400)) (Num (Qz 600)) (Num (Qz 800))
         (Num (Qz 90)) (Num (Qz 120)) = (Num pageX2, Num pageY2)
    /\ pageX1 <= pageX2 /\ pageY2 <= pageY1.
Proof.
  apply convertCoords_order;
    first [ apply (proj1 (Qz_lt 0 _)); lia | apply (proj1 (Qz_le _ _)); lia ].
Defined.

End MapperMore.

(** ** The draw calls, continued *)

Section CallsInPage.
Local Open Scope Qc_scope.

Lemma mapped_in_page (x y cw ch pw ph : Qc) :
  0 < cw -> 0 < ch -> 0 <= pw -> 0 <= ph ->
  0 <= x <= cw -> 0 <= y <= ch ->
  0 <= x / cw * pw <= pw /\ 0 <= ph - y / ch * ph <= ph.
Proof.
  intros Hcw Hch Hpw Hph Hx Hy. split.
  - apply Qc_scale_unit; [apply Qc_ratio_unit |]; assumption.
  - apply Qc_flip_unit, Qc_scale_unit; [apply Qc_ratio_unit |]; assumption.
Qed.

(** X13.  A highlight whose rectangle lies inside the canvas is drawn
    with an origin and a size within the extent of the page: on a valid
    page, with a positive canvas and a page of non-negative size, the one
    rectangle drawn has [x] and [width] between 0 and the page width, and
    [y] and [height] between 0 and the page height.  Nothing is said of
    the sums [x + width] and [y + height]: in binary64 they may pass the
    page edge by a rounding error. *)
Theorem highlight_within_page (pages : list (Size xq)) doc (ann : Annotation xq)
    (i : nat) (x y w h cw ch pw ph : Qc) :
  page ann = Num (Qz (Z.of_nat i)) ->
  pages !! i = Some {| width := Num pw; height := Num ph |} ->
  canvasSize ann = Some {| width := Num cw; height := Num ch |} ->
  type ann = "highlight"%string ->
  rect ann = Some {| rect_x := Num x; rect_y := Num y;
                     rect_width := Num w; rect_height := Num h |} ->
  0 < cw -> 0 < ch -> 0 <= pw -> 0 <= ph ->
  0 <= x -> 0 <= w -> x + w <= cw ->
  0 <= y -> 0 <= h -> y + h <= ch ->
  exists X Y W H : Qc,
    annotate_one pages doc ann
    = Ok (doc ++ [drawRectangle i (Num X) (Num Y) (Num W) (Num H)
                    (hexToRgb (color ann)) highlight_opacity])
    /\ 0 <= X <= pw /\ 0 <= W <= pw
    /\ 0 <= Y <= ph /\ 0 <= H <= ph.
Proof.
  intros Hp Hi Hcs Hty Hr Hcw Hch Hpw Hph Hx Hw Hxw Hy Hh Hyh.
  pose proof (Qc_pos_neq0 _ Hcw) as Ncw. pose proof (Qc_pos_neq0 _ Hch) as Nch.
  destruct (page_in_range pages ann i _ Hp Hi) as [Hin Hat].
  exists (x / cw * pw), (ph - (y + h) / ch * ph), (w / cw * pw),
         ((ph - y / ch * ph) - (ph - (y + h) / ch * ph)).
  split.
  { unfold annotate_one. rewrite Hin, Hat, Hcs, Hty, Hr.
    cbn -[convertCoords xq_div xq_mul xq_sub highlight_opacity].
    rewrite !convertCoords_finite by assumption.
    rewrite xq_div_finite by assumption. reflexivity. }
  assert (Hy0 : 0 <= y + h)
    by (rewrite <- (Qcplus_0_l 0); apply Qcplus_le_compat; assumption).
  assert (Hxc : x <= cw).
  { apply Qcle_trans with (x + w); [| exact Hxw].
    rewrite <- (Qcplus_0_r x) at 1. apply Qcplus_le_compat;
      [apply Qcle_refl | exact Hw]. }
  assert (Hwc : w <= cw).
  { apply Qcle_trans with (x + w); [| exact Hxw].
    rewrite <- (Qcplus_0_l w) at 1. apply Qcplus_le_compat;
      [exact Hx | apply Qcle_refl]. }
  assert (Hhc : h <= ch).
  { apply Qcle_trans with (y + h); [| exact Hyh].
    rewrite <- (Qcplus_0_l h) at 1. apply Qcplus_le_compat;
      [exact Hy | apply Qcle_refl]. }
  destruct (mapped_in_page x (y + h) cw ch pw ph) as [HX HY]; auto.
  destruct (mapped_in_page w h cw ch pw ph) as [HW _]; auto.
  assert (HH : 0 <= h / ch * ph <= ph)
    by (apply Qc_scale_unit; [apply Qc_ratio_unit |]; auto).
  replace (ph - y / ch * ph - (ph - (y + h) / ch * ph))
    with (h / ch * ph) by (field; exact Nch).
  split; [exact HX |]. split; [exact HW |]. split; [exact HY | exact HH].
Qed.

Lemma highlight_within_page_witness :
  exists X Y W H : Qc,
    annotate_one scenario_pages [] scenario_highlight
    = Ok ([] ++ [drawRectangle 0 (Num X) (Num Y) (Num W) (Num H)
                   (hexToRgb (color scenario_highlight)) highlight_opacity])
    /\ 0 <= X <= Qz 600 /\ 0 <= W <= Qz 600
    /\ 0 <= Y <= Qz 800 /\ 0 <= H <= Qz 800.
Proof.
  apply (highlight_within_page scenario_pages [] scenario_highlight 0
           (Qz 30) (Qz 40) (Qz 60) (Qz 80) (Qz 300) (Qz 400) (Qz 600) (Qz 800));
    first [ reflexivity
          | apply (proj1 (Qz_lt 0 _)); lia
          | apply (proj1 (Qz_le 0 _)); lia
          | intros E; discriminate E ].
Defined.

(** X14.  A stroke that stays inside the canvas is drawn inside the page:
    on a valid page, with a positive canvas and a page of non-negative
    size, a draw annotation of at least two points, all inside the canvas,
    issues one path all of whose points have finite coordinates inside the
    page rectangle. *)
Theorem stroke_inside_page (pages : list (Size xq)) doc (ann : Annotation xq)
    (i : nat) (pts : list (Qc * Qc)) (cw ch pw ph : Qc) :
  page ann = Num (Qz (Z.of_nat i)) ->
  pages !! i = Some {| width := Num pw; height := Num ph |} ->
  canvasSize ann = Some {| width := Num cw; height := Num ch |} ->
  type ann = "draw"%string ->
  paths ann = Some (map finite_point pts) ->
  (2 <= length pts)%nat ->
  0 < cw -> 0 < ch -> 0 <= pw -> 0 <= ph ->
  Forall (within cw ch) pts ->
  exists (path : SvgPath xq) (mapped : list (Qc * Qc)),
    annotate_one pages doc ann
    = Ok (doc ++ [drawSvgPath i path (hexToRgb (color ann))
                    (stroke_or_3 (strokeWidth ann)) Round])
    /\ path_points path = map finite_point mapped
    /\ length mapped = length pts
    /\ Forall (within pw ph) mapped.
Proof.
  intros Hp Hi Hcs Hty Hpts Hlen Hcw Hch Hpw Hph Hall.
  pose proof (Qc_pos_neq0 _ Hcw) as Ncw. pose proof (Qc_pos_neq0 _ Hch) as Nch.
  destruct (page_in_range pages ann i _ Hp Hi) as [Hin Hat].
  set (convert := fun p : xq * xq =>
         convertCoords (Num cw) (Num ch) (Num pw) (Num ph) (fst p) (snd p)).
  set (mapq := fun p : Qc * Qc =>
         (fst p / cw * pw, ph - snd p / ch * ph)).
  assert (Hmap : map convert (map finite_point pts)
                 = map finite_point (map mapq pts)).
  { rewrite !map_map. apply map_ext. intros [x y]. unfold convert, mapq.
    cbn [finite_point fst snd]. apply convertCoords_finite; assumption. }
  exists {| moveTo := head (map convert (map finite_point pts));
            lineTo := tail (map convert (map finite_point pts)) |},
         (map mapq pts).
  split; [| split; [| split]].
  - unfold annotate_one. rewrite Hin, Hat, Hcs, Hty, Hpts.
    cbn [read bind fst snd String.eqb Ascii.eqb Bool.eqb width height].
    rewrite length_map.
    replace (length pts <? 2)%nat with false
      by (symmetry; apply Nat.ltb_ge; exact Hlen).
    reflexivity.
  - unfold path_points. cbn [moveTo lineTo]. rewrite <- Hmap.
    destruct (map convert (map finite_point pts)); reflexivity.
  - apply length_map.
  - rewrite Forall_forall in *. intros q Hq.
    apply (list_elem_of_fmap mapq) in Hq. destruct Hq as ([x y] & -> & Hxy).
    specialize (Hall _ Hxy). destruct Hall as [Hx Hy]. cbn [fst snd] in *.
    unfold within, mapq. cbn [fst snd].
    apply mapped_in_page; assumption.
Qed.

Lemma stroke_inside_page_witness :
  exists (path : SvgPath xq) (mapped : list (Qc * Qc)),
    annotate_one scenario_pages [] scenario_stroke
    = Ok ([] ++ [drawSvgPath 1 path (hexToRgb (color scenario_stroke))
                   (stroke_or_3 (strokeWidth scenario_stroke)) Round])
    /\ path_points path = map finite_point mapped
    /\ length mapped = 3%nat
    /\ Forall (within (Qz 600) (Qz 800)) mapped.
Proof.
  apply (stroke_inside_page scenario_pages [] scenario_stroke 1
           [(Qz 0, Qz 0); (Qz 150, Qz 200); (Qz 300, Qz 400)]
           (Qz 300) (Qz 400) (Qz 600) (Qz 800));
    first [ reflexivity
          | cbn; lia
          | apply (proj1 (Qz_lt 0 _)); lia
          | apply (proj1 (Qz_le 0 _)); lia
          | idtac ].
  repeat constructor; cbn [fst snd];
    first [ apply (proj1 (Qz_le _ _)); lia ].
Defined.

End CallsInPage.

(** A highlight that ends at the right edge of the canvas, on a page of
    the width of an A4 sheet, in binary64: the [x] and the [width] of the
    rectangle are each within the page width, as are [y] and [height]
    within the page height, and the sum [x + width] is past the page width
    by a rounding error. *)
Example highlight_edge_binary64 :
  match annotate_one (num:=float)
          [ {| width := 595.28%float; height := 841.89%float |} ] []
          {| page := 0%float;
             canvasSize := Some {| width := 31%float; height := 31%float |};
             color := None; type := "highlight"%string;
             rect := Some {| rect_x := 1%float; rect_y := 1%float;
                             rect_width := 30%float; rect_height := 30%float |};
             paths := None; strokeWidth := None |} with
  | Ok [drawRectangle _ X Y W H _ _] =>
      PrimFloat.leb 0%float X && PrimFloat.leb X 595.28%float
      && PrimFloat.leb 0%float W && PrimFloat.leb W 595.28%float
      && PrimFloat.leb 0%float Y && PrimFloat.leb Y 841.89%float
      && PrimFloat.leb 0%float H && PrimFloat.leb H 841.89%float
      && PrimFloat.ltb 595.28%float (PrimFloat.add X W)
  | _ => false
  end = true.
Proof. vm_compute. reflexivity. Qed.

(** ** The annotation loop, continued *)

Section LoopMore.
Context {num : Type} `{JsNumber num}.

(** An annotation only appends to the calls made so far, and what it
    appends, or the exception it raises, does not depend on them. *)
Lemma annotate_one_appends (pages : list (Size num)) doc ann :
  annotate_one pages doc ann
  = match annotate_one pages [] ann with
    | Ok calls => Ok (doc ++ calls)
    | Throw e => Throw e
    end.
Proof.
  unfold annotate_one.
  destruct (out_of_range pages ann); [rewrite app_nil_r; reflexivity |].
  destruct (page_at pages (page ann)) as [[i pg] |]; cbn; [| reflexivity].
  destruct (canvasSize ann) as [cs |]; cbn; [| reflexivity].
  destruct (String.eqb (type ann) "highlight").
  - destruct (rect ann) as [r |]; cbn; reflexivity.
  - destruct (String.eqb (type ann) "draw");
      [| rewrite app_nil_r; reflexivity].
    destruct (paths ann) as [pts |]; cbn; [| reflexivity].
    match goal with |- context [if ?b then _ else _] => destruct b end;
      [rewrite app_nil_r |]; reflexivity.
Qed.

Lemma for_of_annotate_appends (pages : list (Size num)) anns doc :
  for_of (annotate_one pages) doc anns
  = match for_of (annotate_one pages) [] anns with
    | Ok calls => Ok (doc ++ calls)
    | Throw e => Throw e
    end.
Proof.
  revert doc. induction anns as [| a anns IH]; intros doc; cbn.
  - rewrite app_nil_r. reflexivity.
  - rewrite (annotate_one_appends pages doc a).
    destruct (annotate_one pages [] a) as [c |]; cbn; [| reflexivity].
    rewrite (IH (doc ++ c)), (IH c).
    destruct (for_of (annotate_one pages) [] anns) as [cs |];
      [| reflexivity].
    cbn. rewrite app_assoc. reflexivity.
Qed.

(** The answer for two lists in a row. *)
Lemma annotate_concat (pages : list (Size num))
    (l1 l2 : list (Annotation num)) :
  annotate pages (l1 ++ l2)
  = match annotate pages l1 with
    | SendPdf calls1 =>
        match annotate pages l2 with
        | SendPdf calls2 => SendPdf (calls1 ++ calls2)
        | Status500 e => Status500 e
        end
    | Status500 e => Status500 e
    end.
Proof.
  unfold annotate. rewrite for_of_app.
  destruct (for_of (annotate_one pages) [] l1) as [c1 | e]; cbn;
    [| reflexivity].
  rewrite (for_of_annotate_appends pages l2 c1).
  destruct (for_of (annotate_one pages) [] l2); reflexivity.
Qed.

(** X15.  Annotations are applied in list order and the first exception
    ends the request: the answer for two lists in a row is the calls of the
    first followed by the calls of the second when both succeed, and
    otherwise the first exception met; a failing first list hides whatever
    follows it. *)
Theorem annotate_app (pages : list (Size num))
    (l1 l2 : list (Annotation num)) :
  annotate pages (l1 ++ l2)
  = match annotate pages l1 with
    | SendPdf calls1 =>
        match annotate pages l2 with
        | SendPdf calls2 => SendPdf (calls1 ++ calls2)
        | Status500 e => Status500 e
        end
    | Status500 e => Status500 e
    end.
Proof. apply annotate_concat. Qed.

Lemma annotate_one_calls (pages : list (Size num)) ann calls :
  annotate_one pages [] ann = Ok calls ->
  (length calls <= 1)%nat
  /\ Forall (fun c => (call_page c < length pages)%nat) calls.
Proof.
  unfold annotate_one.
  destruct (out_of_range pages ann).
  { intros E. injection E as <-. split; [cbn; lia | constructor]. }
  destruct (page_at pages (page ann)) as [[i pg] |] eqn:Hat; cbn;
    [| discriminate].
  assert (Hi : (i < length pages)%nat).
  { unfold page_at in Hat. destruct (nindex (page ann)) as [j |];
      [| discriminate]. destruct (pages !! j) as [pg' |] eqn:Hj;
      [| discriminate]. injection Hat as <- <-.
    apply lookup_lt_Some in Hj. exact Hj. }
  destruct (canvasSize ann) as [cs |]; cbn; [| discriminate].
  destruct (String.eqb (type ann) "highlight").
  - destruct (rect ann) as [r |]; cbn; [| discriminate].
    intros E. injection E as <-. split; [cbn; lia |].
    repeat constructor. exact Hi.
  - destruct (String.eqb (type ann) "draw").
    + destruct (paths ann) as [pts |]; cbn; [| discriminate].
      match goal with |- context [if ?b then _ else _] => destruct b end;
        intros E; injection E as <-; (split; [cbn; lia |]);
        repeat constructor. exact Hi.
    + intros E. injection E as <-. split; [cbn; lia | constructor].
Qed.

(** X16.  When the route sends the document, every call was made on a page
    of the document, and there are at most as many calls as annotations:
    no annotation draws twice and none draws on a page that does not
    exist. *)
Theorem annotate_calls_on_pages (pages : list (Size num))
    (anns : list (Annotation num)) (calls : list (DrawCall num)) :
  annotate pages anns = SendPdf calls ->
  (length calls <= length anns)%nat
  /\ Forall (fun c => (call_page c < length pages)%nat) calls.
Proof.
  revert calls. induction anns as [| a anns IH]; intros calls E.
  - injection E as <-. split; [cbn; lia | constructor].
  - change (a :: anns) with ([a] ++ anns) in E. rewrite annotate_concat in E.
    destruct (annotate pages [a]) as [c1 | e] eqn:Ea; [| discriminate E].
    destruct (annotate pages anns) as [c2 | e] eqn:Es; [| discriminate E].
    injection E as <-.
    destruct (IH c2 eq_refl) as [Hl Hf].
    assert (H1 : annotate_one pages [] a = Ok c1).
    { unfold annotate in Ea. cbn in Ea.
      destruct (annotate_one pages [] a) as [c |]; cbn in Ea;
        [injection Ea as <-; reflexivity | discriminate Ea]. }
    destruct (annotate_one_calls pages a c1 H1) as [Hl1 Hf1].
    split; [rewrite length_app; cbn; lia | apply Forall_app; split; assumption].
Qed.

End LoopMore.

Lemma annotate_calls_on_pages_witness :
  (length [scenario_call (num:=xq) 560] <= 2)%nat
  /\ Forall (fun c => (call_page c < 2)%nat) [scenario_call (num:=xq) 560].
Proof.
  refine (annotate_calls_on_pages scenario_pages
            [scenario_highlight; on_page (Num (Qz 7)) scenario_stroke]
            [scenario_call 560] _).
  change [scenario_highlight; on_page (Num (Qz 7)) scenario_stroke]
    with ([scenario_highlight] ++ [on_page (Num (Qz 7)) scenario_stroke]).
  rewrite annotate_skip by reflexivity.
  exact scenario_eval_xq.
Defined.

(** ** Temporary files *)

Section Cleanup.

Lemma cleanup_fold (l : list JsFile) (disk : gset string) (log : list string) :
  exists log',
    foldl cleanup_one (disk, log) l
    = (disk ∖ list_to_set (named l), log ++ log')
    /\ forall p, p ∈ log' -> p ∈ named l.
Proof.
  revert disk log. induction l as [| f l IH]; intros disk log.
  - exists []. split; [| intros p Hp; exact Hp].
    cbn. rewrite app_nil_r. f_equal. set_solver.
  - cbn [foldl named].
    destruct f as [| p |]; cbn [cleanup_one]; try apply IH.
    destruct (String.eqb p "") eqn:Ee; [apply IH |].
    cbn [fst snd]. unfold unlink. destruct (decide (p ∈ disk)) as [Hin | Hout].
    + destruct (IH (disk ∖ {[p]}) log) as (log' & -> & Hl).
      exists log'. split; [f_equal; cbn; set_solver |].
      intros q Hq. cbn. right. apply Hl, Hq.
    + destruct (IH disk (log ++ [p])) as (log' & -> & Hl).
      exists (p :: log'). split.
      * f_equal; [cbn; set_solver |]. rewrite <- app_assoc. reflexivity.
      * intros q Hq. cbn. apply elem_of_cons in Hq.
        destruct Hq as [-> | Hq]; [left | right; apply Hl, Hq].
Qed.

Lemma cleanupFiles_fst_snd (files : FilesArg) (disk : gset string) :
  exists log,
    cleanupFiles files disk
    = (disk ∖ list_to_set (named (files_of files)), log).
Proof.
  unfold cleanupFiles. fold (files_of files).
  destruct (cleanup_fold (files_of files) disk []) as (log' & -> & _).
  eexists. reflexivity.
Qed.

Lemma cleanup_fs_fold (refuses : gset string -> string -> bool)
    (l : list JsFile) (disk : gset string) (log : list string) :
  exists disk' log',
    foldl (cleanup_one_fs refuses) (disk, log) l = (disk', log ++ log')
    /\ disk' ⊆ disk
    /\ (forall p, p ∈ disk -> p ∉ disk' -> p ∈ named l)
    /\ (forall p, p ∈ named l -> p ∉ disk' \/ p ∈ log')
    /\ (forall p, p ∈ log' -> p ∈ named l).
Proof.
  revert disk log. induction l as [| f l IH]; intros disk log.
  - exists disk, []. cbn. rewrite app_nil_r.
    split; [reflexivity |]. split; [set_solver |].
    split; [intros p Hp Hn; contradiction |].
    split; intros p Hp; inversion Hp.
  - cbn [foldl named].
    destruct f as [| p |]; cbn [cleanup_one_fs]; try apply IH.
    destruct (String.eqb p "") eqn:Ee; [apply IH |].
    cbn [fst snd]. unfold unlink_fs.
    destruct (decide (p ∈ disk)) as [Hin | Hout];
      [destruct (refuses disk p) |].
    + destruct (IH disk (log ++ [p])) as (d & l' & -> & Hd & Hr & Hn & Hl).
      exists d, (p :: l'). rewrite <- app_assoc.
      split; [reflexivity |]. split; [exact Hd |].
      split; [intros q Hq Hq'; right; apply (Hr q Hq Hq') |].
      split; intros q Hq; apply elem_of_cons in Hq;
        destruct Hq as [-> | Hq].
      * right. left.
      * destruct (Hn q Hq) as [Hq' | Hq']; [left; exact Hq' |].
        right. right. exact Hq'.
      * left.
      * right. apply Hl, Hq.
    + destruct (IH (disk ∖ {[p]}) log) as (d & l' & -> & Hd & Hr & Hn & Hl).
      exists d, l'.
      split; [reflexivity |]. split; [set_solver |].
      split.
      { intros q Hq Hq'. destruct (decide (q = p)) as [-> | Hne]; [left |].
        right. apply Hr; [set_solver | exact Hq']. }
      split.
      { intros q Hq. apply elem_of_cons in Hq. destruct Hq as [-> | Hq];
          [left; set_solver | apply Hn, Hq]. }
      intros q Hq. right. apply Hl, Hq.
    + destruct (IH disk (log ++ [p])) as (d & l' & -> & Hd & Hr & Hn & Hl).
      exists d, (p :: l'). rewrite <- app_assoc.
      split; [reflexivity |]. split; [exact Hd |].
      split; [intros q Hq Hq'; right; apply (Hr q Hq Hq') |].
      split; intros q Hq; apply elem_of_cons in Hq;
        destruct Hq as [-> | Hq].
      * right. left.
      * destruct (Hn q Hq) as [Hq' | Hq']; [left; exact Hq' |].
        right. right. exact Hq'.
      * left.
      * right. apply Hl, Hq.
Qed.

(** When the file system refuses nothing, the general model is the first
    one. *)
Lemma cleanupFiles_fs_regular (files : FilesArg) (disk : gset string) :
  cleanupFiles_fs (fun _ _ => false) files disk = cleanupFiles files disk.
Proof.
  unfold cleanupFiles_fs, cleanupFiles. f_equal.
Qed.

(** X17.  [cleanupFiles] touches only the paths it is given, whatever
    [fs.unlink] does with them: no path appears on the disk, every path
    that has gone is one it was given, every path it was given is
    afterwards gone or was logged as a failed deletion, and every logged
    failure is of a path it was given.  [null], the empty string and values
    that are not strings are passed over, and a deletion that fails does
    not stop the others. *)
Theorem cleanupFiles_touches_named (refuses : gset string -> string -> bool)
    (files : FilesArg) (disk : gset string) :
  fst (cleanupFiles_fs refuses files disk) ⊆ disk
  /\ (forall p, p ∈ disk -> p ∉ fst (cleanupFiles_fs refuses files disk) ->
                p ∈ named (files_of files))
  /\ (forall p, p ∈ named (files_of files) ->
                p ∉ fst (cleanupFiles_fs refuses files disk)
                \/ p ∈ snd (cleanupFiles_fs refuses files disk))
  /\ (forall p, p ∈ snd (cleanupFiles_fs refuses files disk) ->
                p ∈ named (files_of files)).
Proof.
  unfold cleanupFiles_fs. fold (files_of files).
  destruct (cleanup_fs_fold refuses (files_of files) disk [])
    as (d & l' & -> & Hd & Hr & Hn & Hl).
  cbn [fst snd app]. auto.
Qed.

End Cleanup.

(** ** The merge route *)

Section MergeRoute.
Context {P : Type} {pdf_lib : PdfLibExports}.

Lemma named_paths (ps : list string) :
  Forall (fun p => p <> EmptyString) ps -> named (map JString ps) = ps.
Proof.
  induction 1 as [| p ps Hp Hps IH]; cbn; [reflexivity |].
  destruct (String.eqb p "") eqn:E.
  - apply String.eqb_eq in E. contradiction.
  - rewrite IH. reflexivity.
Qed.

Lemma merge_loop_all (files : list (Upload P)) uploaded merged :
  forallb mergeable files = true ->
  merge_loop files uploaded merged
  = (uploaded ++ map upload_path files,
     inr (merged ++ concat (map pages_of files))).
Proof.
  revert uploaded merged.
  induction files as [| f files IH]; intros uploaded merged Hall; cbn.
  - rewrite !app_nil_r. reflexivity.
  - cbn in Hall. apply andb_true_iff in Hall. destruct Hall as [Hf Hall].
    unfold mergeable in Hf. unfold pages_of.
    destruct (content f) as [enc pages | msg | | msg]; try discriminate Hf.
    destruct enc; [discriminate Hf |].
    rewrite (IH _ _ Hall). rewrite <- !app_assoc. reflexivity.
Qed.


(** X18.  When every uploaded file loads and none is encrypted, the merge
    route sends [merged.pdf] with the pages of the files one after the
    other, in upload order, and every uploaded file is deleted, no other
    file being touched. *)
Theorem merge_route_success (files : list (Upload P)) (disk : gset string) :
  files <> [] ->
  forallb mergeable files = true ->
  Forall (fun f => upload_path f <> EmptyString) files ->
  exists log,
    merge_route (Some files) disk
    = (Send "merged.pdf" (concat (map pages_of files)),
       (disk ∖ list_to_set (map upload_path files), log)).
Proof.
  intros Hne Hall Hpaths. unfold merge_route.
  destruct files as [| f files]; [contradiction |].
  rewrite (merge_loop_all (f :: files) [] [] Hall). cbn [fst snd app].
  pose proof (cleanupFiles_fst_snd (Array (map JString (map upload_path (f :: files)))) disk) as Hc.
  destruct Hc as (log & ->). exists log. f_equal. f_equal.
  cbn [files_of]. rewrite named_paths; [reflexivity |].
  apply Forall_fmap. exact Hpaths.
Qed.


End MergeRoute.

Lemma merge_route_success_witness :
  exists log,
    merge_route (pdf_lib:=without_DecryptionError)
      (Some [upload_a; upload_c]) sample_disk
    = (Send "merged.pdf" (concat (map pages_of [upload_a; upload_c])),
       (sample_disk ∖ list_to_set (map upload_path [upload_a; upload_c]),
        log)).
Proof.
  apply merge_route_success;
    [discriminate | reflexivity | repeat constructor; discriminate].
Defined.


(** After a merge that fails on the second of three files, the third file
    is still on the disk. *)
Example merge_leaves_later_uploads :
  elements (fst (snd (merge_route (pdf_lib:=without_DecryptionError)
                        (Some [upload_a; upload_b_locked; upload_c])
                        sample_disk)))
  = ["uploads/3-c.pdf"%string].
Proof. vm_compute. reflexivity. Qed.

(** A file that does not load, merged with a pdf-lib that exports no
    [DecryptionError]: the answer carries the message of the [TypeError] of
    the [instanceof] test, not the message of the error of the load; with a
    pdf-lib that exports the class it carries the message of the load. *)
Example merge_corrupt_file_message :
  fst (merge_route (pdf_lib:=without_DecryptionError)
         (Some [upload_d_corrupt]) sample_disk)
  = Fail 500
      "Failed to merge PDFs: Right-hand side of 'instanceof' is not callable"
  /\ fst (merge_route (pdf_lib:=with_DecryptionError)
            (Some [upload_d_corrupt]) sample_disk)
     = Fail 500 "Failed to merge PDFs: not a PDF".
Proof. split; reflexivity. Qed.

(** ** The text of a converted document *)

Section ExtractText.

Lemma rev_app_append (s acc : string) :
  String.rev_app s acc = String.rev_app s EmptyString +:+ acc.
Proof.
  revert acc. induction s as [| c s IH]; intros acc; [reflexivity |].
  cbn [String.rev_app]. rewrite (IH (String c acc)), (IH (String c EmptyString)).
  rewrite string_app_assoc. reflexivity.
Qed.

Lemma rev_cons (c : ascii) (s : string) :
  String.rev (String c s) = String.rev s +:+ String c EmptyString.
Proof. unfold String.rev. cbn [String.rev_app]. apply rev_app_append. Qed.

Lemma rev_append (a b : string) :
  String.rev (a +:+ b) = String.rev b +:+ String.rev a.
Proof.
  induction a as [| c a IH].
  - change (EmptyString +:+ b) with b. change (String.rev EmptyString) with EmptyString.
    rewrite string_app_nil_r. reflexivity.
  - change (String c a +:+ b) with (String c (a +:+ b)).
    rewrite !rev_cons, IH. apply string_app_assoc.
Qed.

Lemma rev_involutive (s : string) : String.rev (String.rev s) = s.
Proof.
  induction s as [| c s IH]; [reflexivity |].
  rewrite rev_cons, rev_append, IH. reflexivity.
Qed.

Lemma trimStart_starts_clean (s : string) : starts_clean (trimStart s) = true.
Proof.
  induction s as [| c s IH]; [reflexivity |].
  cbn [trimStart]. destruct (is_white c) eqn:E; [exact IH |].
  cbn. rewrite E. reflexivity.
Qed.

(** Trimming at the start keeps everything from a character that is not
    white space on. *)
Lemma trimStart_keeps (u : string) (c : ascii) (r : string) :
  is_white c = false ->
  exists w, trimStart (u +:+ String c r) = w +:+ String c r.
Proof.
  intros Hc. induction u as [| a u IH].
  - exists EmptyString. change (EmptyString +:+ String c r) with (String c r).
    cbn [trimStart]. rewrite Hc. reflexivity.
  - change (String a u +:+ String c r) with (String a (u +:+ String c r)).
    cbn [trimStart]. destruct (is_white a); [exact IH |].
    exists (String a u). reflexivity.
Qed.

(** A trimmed string has no white space at either end. *)
Lemma trim_clean (s : string) :
  starts_clean (trim s) = true /\ starts_clean (String.rev (trim s)) = true.
Proof.
  unfold trim, trimEnd. split.
  - pose proof (trimStart_starts_clean s) as Hs.
    destruct (trimStart s) as [| c t]; [reflexivity |].
    cbn in Hs. apply negb_true_iff in Hs.
    rewrite rev_cons.
    destruct (trimStart_keeps (String.rev t) c EmptyString Hs) as (w & ->).
    rewrite rev_append.
    change (String.rev (String c EmptyString)) with (String c EmptyString).
    change (starts_clean (String c (String.rev w)) = true).
    cbn [starts_clean]. rewrite Hs. reflexivity.
  - rewrite rev_involutive. apply trimStart_starts_clean.
Qed.

Lemma only_plain_spaces_app (a b : string) :
  only_plain_spaces (a +:+ b) = only_plain_spaces a && only_plain_spaces b.
Proof.
  induction a as [| c a IH]; [reflexivity |].
  change (String c a +:+ b) with (String c (a +:+ b)).
  cbn [only_plain_spaces]. rewrite IH, andb_assoc. reflexivity.
Qed.

Lemma only_plain_spaces_rev (s : string) :
  only_plain_spaces (String.rev s) = only_plain_spaces s.
Proof.
  induction s as [| c s IH]; [reflexivity |].
  rewrite rev_cons, only_plain_spaces_app, IH. cbn [only_plain_spaces].
  rewrite andb_true_r. apply andb_comm.
Qed.

Lemma only_plain_spaces_trimStart (s : string) :
  only_plain_spaces s = true -> only_plain_spaces (trimStart s) = true.
Proof.
  induction s as [| c s IH]; [reflexivity |].
  intros Hs. cbn [trimStart]. destruct (is_white c); [| exact Hs].
  cbn in Hs. apply andb_true_iff in Hs. apply IH, Hs.
Qed.

Lemma only_plain_spaces_trim (s : string) :
  only_plain_spaces s = true -> only_plain_spaces (trim s) = true.
Proof.
  intros Hs. unfold trim, trimEnd.
  rewrite only_plain_spaces_rev. apply only_plain_spaces_trimStart.
  rewrite only_plain_spaces_rev. apply only_plain_spaces_trimStart, Hs.
Qed.

Lemma only_plain_spaces_collapse (prev : bool) (s : string) :
  only_plain_spaces (collapse_spaces prev s) = true.
Proof.
  revert prev. induction s as [| c s IH]; intros prev; [reflexivity |].
  cbn [collapse_spaces]. destruct (is_white c) eqn:E.
  - destruct prev; [apply IH |]. cbn. apply IH.
  - cbn. rewrite E. cbn. apply IH.
Qed.

Lemma only_plain_spaces_replace (pat rep : string) (skip : nat) (s : string) :
  only_plain_spaces rep = true -> only_plain_spaces s = true ->
  only_plain_spaces (replace_from pat rep skip s) = true.
Proof.
  intros Hrep. revert skip. induction s as [| c s IH]; intros skip Hs;
    [reflexivity |].
  cbn in Hs. apply andb_true_iff in Hs. destruct Hs as [Hc Hs].
  cbn [replace_from]. destruct skip as [| k]; [| apply IH, Hs].
  destruct (String.prefix pat (String c s)).
  - rewrite only_plain_spaces_app, Hrep. apply IH, Hs.
  - cbn. rewrite Hc. apply IH, Hs.
Qed.

Lemma only_plain_spaces_decode (s : string) :
  only_plain_spaces s = true -> only_plain_spaces (decode_entities s) = true.
Proof.
  intros Hs. unfold decode_entities, replace_all.
  repeat (apply only_plain_spaces_replace; [reflexivity |]). exact Hs.
Qed.

(** X20.  The text taken from the HTML of a converted document is never
    empty and has no white space at its start or at its end. *)
Theorem extract_text_trimmed (html : string) :
  extract_text html <> EmptyString
  /\ starts_clean (extract_text html) = true
  /\ starts_clean (String.rev (extract_text html)) = true.
Proof.
  unfold extract_text.
  destruct (trim_clean (decode_entities
              (collapse_spaces false (strip_tags false html)))) as [H1 H2].
  destruct (trim _) as [| c t].
  - split; [discriminate | split; vm_compute; reflexivity].
  - split; [discriminate | split; [exact H1 | exact H2]].
Qed.

(** X21.  Every white-space character of the text taken from the HTML is a
    plain space: no tab, line feed or carriage return of the document
    survives, so the text holds no paragraph break. *)
Theorem extract_text_plain_spaces (html : string) :
  only_plain_spaces (extract_text html) = true.
Proof.
  unfold extract_text.
  pose proof (only_plain_spaces_trim _
                (only_plain_spaces_decode _
                   (only_plain_spaces_collapse false (strip_tags false html))))
    as Ht.
  destruct (trim _); [vm_compute; reflexivity | exact Ht].
Qed.

End ExtractText.

Section ExtractTags.

Lemma includes_app (x : ascii) (a b : string) :
  includes x (a +:+ b) = includes x a || includes x b.
Proof.
  induction a as [| c a IH]; [reflexivity |].
  change (String c a +:+ b) with (String c (a +:+ b)).
  cbn [includes]. destruct (Ascii.eqb c x); [reflexivity | exact IH].
Qed.

Lemma includes_strip_tags (x : ascii) (b : bool) (s : string) :
  Ascii.eqb " " x = false ->
  includes x (strip_tags b s) = true -> includes x s = true.
Proof.
  intros Hx. revert b. induction s as [| c s IH]; intros b; [destruct b; exact id |].
  cbn [strip_tags includes]. destruct b.
  - destruct (Ascii.eqb c ">").
    + cbn [includes]. rewrite Hx. intros Hi. apply IH in Hi. rewrite Hi.
      destruct (Ascii.eqb c x); reflexivity.
    + intros Hi. apply IH in Hi. rewrite Hi.
      destruct (Ascii.eqb c x); reflexivity.
  - destruct (Ascii.eqb c "<" && includes ">" s).
    + intros Hi. apply IH in Hi. rewrite Hi.
      destruct (Ascii.eqb c x); reflexivity.
    + cbn [includes]. destruct (Ascii.eqb c x); [reflexivity | apply IH].
Qed.

Lemma no_tag_strip_tags (b : bool) (s : string) :
  no_tag (strip_tags b s) = true.
Proof.
  revert b. induction s as [| c s IH]; intros b; [destruct b; reflexivity |].
  cbn [strip_tags]. destruct b.
  - destruct (Ascii.eqb c ">"); [| apply IH].
    cbn [no_tag]. rewrite IH. reflexivity.
  - destruct (Ascii.eqb c "<" && includes ">" s) eqn:E; [apply IH |].
    cbn [no_tag]. rewrite IH, andb_true_r. apply negb_true_iff.
    apply andb_false_iff in E. apply andb_false_iff.
    destruct E as [E | E]; [left; exact E | right].
    apply not_true_is_false. intros Hi.
    apply (includes_strip_tags ">" false s eq_refl) in Hi. congruence.
Qed.

Lemma includes_collapse (x : ascii) (prev : bool) (s : string) :
  is_white x = false ->
  includes x (collapse_spaces prev s) = includes x s.
Proof.
  intros Hx. revert prev. induction s as [| c s IH]; intros prev;
    [reflexivity |].
  cbn [collapse_spaces includes]. destruct (is_white c) eqn:E.
  - assert (Hcx : Ascii.eqb c x = false).
    { apply not_true_is_false. intros Hc. apply Ascii.eqb_eq in Hc. congruence. }
    rewrite Hcx. destruct prev; [apply IH |]. cbn [includes].
    assert (Hsx : Ascii.eqb " " x = false).
    { apply not_true_is_false. intros Hc. apply Ascii.eqb_eq in Hc.
      subst x. discriminate Hx. }
    rewrite Hsx. apply IH.
  - cbn [includes]. rewrite IH. reflexivity.
Qed.

Lemma no_tag_collapse (prev : bool) (s : string) :
  no_tag s = true -> no_tag (collapse_spaces prev s) = true.
Proof.
  revert prev. induction s as [| c s IH]; intros prev Hs; [reflexivity |].
  cbn in Hs. apply andb_true_iff in Hs. destruct Hs as [Hc Hs].
  cbn [collapse_spaces]. destruct (is_white c) eqn:E.
  - destruct prev; [apply IH, Hs |]. cbn [no_tag]. rewrite (IH _ Hs).
    reflexivity.
  - cbn [no_tag]. rewrite (IH _ Hs), andb_true_r.
    rewrite (includes_collapse ">" false s eq_refl). exact Hc.
Qed.

(** Without [&] in the text no entity is found. *)
Lemma replace_all_no_amp (p rep s : string) :
  includes "&" s = false -> replace_all (String "&" p) rep s = s.
Proof.
  unfold replace_all. induction s as [| c s IH]; [reflexivity |].
  cbn [includes replace_from]. destruct (Ascii.eqb c "&") eqn:E; [discriminate |].
  intros Hs. cbn [String.prefix].
  destruct (ascii_dec "&" c) as [Hc | Hc].
  - subst c. discriminate E.
  - rewrite (IH Hs). reflexivity.
Qed.

Lemma decode_entities_no_amp (s : string) :
  includes "&" s = false -> decode_entities s = s.
Proof.
  intros Hs. unfold decode_entities.
  rewrite (replace_all_no_amp "nbsp;" " " s Hs).
  rewrite (replace_all_no_amp "amp;" "&" s Hs).
  rewrite (replace_all_no_amp "lt;" "<" s Hs).
  rewrite (replace_all_no_amp "gt;" ">" s Hs).
  rewrite (replace_all_no_amp "quot;" _ s Hs).
  apply (replace_all_no_amp "#39;" "'" s Hs).
Qed.

Lemma trimStart_suffix (s : string) : exists w, s = w +:+ trimStart s.
Proof.
  induction s as [| c s IH]; [exists EmptyString; reflexivity |].
  cbn [trimStart]. destruct (is_white c).
  - destruct IH as (w & Hw). exists (String c w).
    change (String c s = String c (w +:+ trimStart s)). f_equal. exact Hw.
  - exists EmptyString. reflexivity.
Qed.

Lemma trim_infix (s : string) : exists w1 w2, s = w1 +:+ trim s +:+ w2.
Proof.
  destruct (trimStart_suffix s) as (w1 & H1).
  destruct (trimStart_suffix (String.rev (trimStart s))) as (w2 & H2).
  exists w1, (String.rev w2). unfold trim, trimEnd.
  rewrite <- rev_append, <- H2, rev_involutive. exact H1.
Qed.

Lemma no_tag_app (a b : string) :
  no_tag (a +:+ b) = true -> no_tag a = true /\ no_tag b = true.
Proof.
  induction a as [| c a IH]; [intros Hb; split; [reflexivity | exact Hb] |].
  change (String c a +:+ b) with (String c (a +:+ b)). cbn [no_tag].
  intros Hs. apply andb_true_iff in Hs. destruct Hs as [Hc Hs].
  destruct (IH Hs) as [Ha Hb]. split; [| exact Hb].
  rewrite Ha, andb_true_r. apply negb_true_iff. apply negb_true_iff in Hc.
  apply andb_false_iff in Hc. apply andb_false_iff.
  destruct Hc as [Hc | Hc]; [left; exact Hc | right].
  rewrite includes_app in Hc. apply orb_false_iff in Hc. apply Hc.
Qed.

Lemma no_tag_trim (s : string) : no_tag s = true -> no_tag (trim s) = true.
Proof.
  intros Hs. destruct (trim_infix s) as (w1 & w2 & E). rewrite E in Hs.
  apply no_tag_app in Hs. destruct Hs as [_ Hs].
  apply no_tag_app in Hs. apply Hs.
Qed.

(** X22.  When the HTML holds no [&], so no entity, no tag is left in the
    text taken from it: the text holds no [<] with a [>] after it. *)
Theorem extract_text_no_tag (html : string) :
  includes "&" html = false -> no_tag (extract_text html) = true.
Proof.
  intros Hamp. unfold extract_text.
  assert (Hs : includes "&" (collapse_spaces false (strip_tags false html))
               = false).
  { rewrite (includes_collapse "&" false _ eq_refl).
    apply not_true_is_false. intros Hi.
    apply (includes_strip_tags "&" false html eq_refl) in Hi. congruence. }
  rewrite (decode_entities_no_amp _ Hs).
  pose proof (no_tag_trim _ (no_tag_collapse false _
                               (no_tag_strip_tags false html))) as Ht.
  destruct (trim _); [vm_compute; reflexivity | exact Ht].
Qed.

Lemma extract_text_no_tag_witness :
  no_tag (extract_text "<p>Hello  <b>world</b></p> 2 > 1 <"%string) = true.
Proof. apply extract_text_no_tag. reflexivity. Defined.

End ExtractTags.

(** ** Skipped annotations, continued *)

Section SkipMany.
Context {num : Type} `{JsNumber num}.

(** X23.  Any number of annotations with an out-of-range page index,
    anywhere in the list, leave the answer as it is without them. *)
Theorem annotate_ignores_out_of_range (pages : list (Size num))
    (anns : list (Annotation num)) :
  annotate pages anns
  = annotate pages (filter (fun a => out_of_range pages a = false) anns).
Proof.
  induction anns as [| a anns IH]; [reflexivity |].
  rewrite filter_cons. destruct (decide (out_of_range pages a = false)) as [Ha | Ha].
  - change (a :: anns) with ([a] ++ anns).
    change (a :: filter _ anns) with ([a] ++ filter (fun a => out_of_range pages a = false) anns).
    rewrite !annotate_concat, IH. reflexivity.
  - apply not_false_is_true in Ha.
    rewrite <- IH. apply (annotate_skip pages [] anns a Ha).
Qed.

End SkipMany.
